(** * audtotext: the recording session controller of [src/app/page.tsx]

    The page component keeps six pieces of React state and four
    asynchronous handlers ([startRecording], [stopRecording],
    [loadSavedTranscriptions], [deleteTranscription]) that talk to two
    external collaborators: the browser's speech recognition object and
    the hosted [transcriptions] table.  The handlers are embedded as
    programs over a small effect signature (state setters, alerts, console
    output, awaited network calls, un-awaited calls of another handler);
    the collaborators appear only through the answers they give.

    The source holds two variants of the page.  This development follows
    the first one, whose records carry an [id] and which tracks
    [isLoading] and [showDeleteConfirm]. *)

From Stdlib Require Import ZArith NArith List String Ascii Bool Lia.
Import ListNotations.
Open Scope Z_scope.

(** ** Platform values: strings and dates *)

Module JS.

(** A JavaScript string is a sequence of UTF-16 code units. *)
Definition code_unit := N.
Definition js_string := list code_unit.

Definition of_string (s : string) : js_string :=
  map N_of_ascii (list_ascii_of_string s).

(** [WhiteSpace] and [LineTerminator] code points, the ones
    [String.prototype.trim] strips. *)
Definition is_white_space (c : code_unit) : bool :=
  (existsb (N.eqb c)
     [9; 10; 11; 12; 13; 32; 160; 5760; 8232; 8233; 8239; 8287; 12288; 65279]
   || ((8192 <=? c) && (c <=? 8202)))%N.

Fixpoint trim_start (s : js_string) : js_string :=
  match s with
  | c :: s' => if is_white_space c then trim_start s' else s
  | [] => []
  end.

Definition trim_end (s : js_string) : js_string := rev (trim_start (rev s)).

Definition trim (s : js_string) : js_string := trim_end (trim_start s).

(** Truthiness of a string: the empty string is the only falsy one. *)
Definition truthy (s : js_string) : bool :=
  match s with [] => false | _ :: _ => true end.

(** *** [new Date().toISOString()]

    A time value is a number of milliseconds since the epoch, within
    [+-8.64e15].  The calendar fields are those of the proleptic
    Gregorian calendar. *)
Definition msPerDay : Z := 86400000.

Definition valid_time (t : Z) : Prop :=
  -8640000000000000 <= t <= 8640000000000000.

Definition Day (t : Z) : Z := t / msPerDay.
Definition TimeWithinDay (t : Z) : Z := t mod msPerDay.

Definition HourFromTime (t : Z) : Z := TimeWithinDay t / 3600000.
Definition MinFromTime (t : Z) : Z := (TimeWithinDay t / 60000) mod 60.
Definition SecFromTime (t : Z) : Z := (TimeWithinDay t / 1000) mod 60.
Definition msFromTime (t : Z) : Z := TimeWithinDay t mod 1000.

(** Year, month (1..12) and day of the month (1..31) of a day number,
    counting days in 400-year eras that start on 1 March. *)
Definition day_of_era (day : Z) : Z := (day + 719468) mod 146097.
Definition era (day : Z) : Z := (day + 719468) / 146097.
Definition year_of_era (doe : Z) : Z :=
  (doe - doe / 1460 + doe / 36524 - doe / 146096) / 365.
Definition day_of_year (doe : Z) : Z :=
  let yoe := year_of_era doe in doe - (365 * yoe + yoe / 4 - yoe / 100).
Definition month_index (doy : Z) : Z := (5 * doy + 2) / 153.

Definition MonthFromDay (day : Z) : Z :=
  let mp := month_index (day_of_year (day_of_era day)) in
  if mp <? 10 then mp + 3 else mp - 9.

Definition DateFromDay (day : Z) : Z :=
  let doy := day_of_year (day_of_era day) in
  doy - (153 * month_index doy + 2) / 5 + 1.

Definition YearFromDay (day : Z) : Z :=
  year_of_era (day_of_era day) + era day * 400
  + (if MonthFromDay day <=? 2 then 1 else 0).

Definition digit (n : Z) : ascii := ascii_of_N (Z.to_N (48 + n mod 10)).

Definition pad2 (n : Z) (k : string) : string :=
  String (digit (n / 10)) (String (digit n) k).
Definition pad3 (n : Z) (k : string) : string :=
  String (digit (n / 100)) (pad2 n k).
Definition pad4 (n : Z) (k : string) : string :=
  pad2 (n / 100) (pad2 n k).
Definition pad6 (n : Z) (k : string) : string :=
  pad2 (n / 10000) (pad4 n k).

(** Years 0..9999 print with four digits, all others with a sign and six
    digits. *)
Definition year_string (y : Z) (k : string) : string :=
  if (0 <=? y) && (y <=? 9999) then pad4 y k
  else if y <? 0 then String "-" (pad6 (- y) k)
  else String "+" (pad6 y k).

Definition month_to_ms (t : Z) (k : string) : string :=
  let day := Day t in
  String "-" (pad2 (MonthFromDay day)
 (String "-" (pad2 (DateFromDay day)
 (String "T" (pad2 (HourFromTime t)
 (String ":" (pad2 (MinFromTime t)
 (String ":" (pad2 (SecFromTime t)
 (String "." (pad3 (msFromTime t) k))))))))))).

Definition toISOString (t : Z) : string :=
  year_string (YearFromDay (Day t)) (month_to_ms t "Z").

(** *** The ISO-8601 date-time format, UTC designator [Z]

    [YYYY-MM-DDTHH:mm:ss.sssZ], or the expanded form with a signed
    six-digit year, which must not be [-000000]. *)
Definition is_digit (c : ascii) : bool :=
  ((48 <=? N_of_ascii c) && (N_of_ascii c <=? 57))%N.

Definition digit_value (c : ascii) : Z := Z.of_N (N_of_ascii c) - 48.

Definition number2 (a b : ascii) : Z := 10 * digit_value a + digit_value b.

Definition between (lo x hi : Z) : bool := (lo <=? x) && (x <=? hi).

Definition time_wf (l : list ascii) : bool :=
  match l with
  | [c1; m1; m2; c2; d1; d2; c3; h1; h2; c4; mi1; mi2; c5; s1; s2; c6;
     f1; f2; f3; c7] =>
      forallb is_digit [m1; m2; d1; d2; h1; h2; mi1; mi2; s1; s2; f1; f2; f3]
      && Ascii.eqb c1 "-" && Ascii.eqb c2 "-" && Ascii.eqb c3 "T"
      && Ascii.eqb c4 ":" && Ascii.eqb c5 ":" && Ascii.eqb c6 "."
      && Ascii.eqb c7 "Z"
      && between 1 (number2 m1 m2) 12
      && between 1 (number2 d1 d2) 31
      && between 0 (number2 h1 h2) 23
      && between 0 (number2 mi1 mi2) 59
      && between 0 (number2 s1 s2) 59
  | _ => false
  end.

Definition iso8601_utc_wf (s : string) : bool :=
  match list_ascii_of_string s with
  | y1 :: y2 :: y3 :: y4 :: rest =>
      if is_digit y1 then
        forallb is_digit [y2; y3; y4] && time_wf rest
      else
        match rest with
        | y5 :: y6 :: rest' =>
            (Ascii.eqb y1 "+" || Ascii.eqb y1 "-")
            && forallb is_digit [y2; y3; y4; y5; y6]
            && (match rest' with y7 :: _ => is_digit y7 | [] => false end)
            && negb (Ascii.eqb y1 "-"
                     && forallb (Ascii.eqb "0") [y2; y3; y4; y5; y6]
                     && match rest' with
                        | y7 :: _ => Ascii.eqb y7 "0"
                        | [] => false
                        end)
            && time_wf (tl rest')
        | _ => false
        end
  | _ => false
  end.

End JS.

Import JS.

(** ** The hosted table, as the client sees it *)

Module Store.

(** [interface Transcription] *)
Record Transcription : Type := {
  id : Z;
  text : js_string;
  created_at : js_string
}.

(** The four calls the page makes on [supabase.from('transcriptions')]. *)
Inductive Query : Type :=
| SelectCount                                   (* .select('count') *)
| Insert (text created_at : js_string)          (* .insert([{text, created_at}]) *)
| SelectAll                                     (* .select('*').order('created_at', {ascending: false}) *)
| Delete (id : Z).                              (* .delete().eq('id', id) *)

Record PostgrestError : Type := { message : string }.

(** An awaited call either resolves to [{data, error}] or rejects. *)
Inductive Reply : Type :=
| Resolved (data : option (list Transcription)) (error : option PostgrestError)
| Rejected (reason : string).

Fixpoint same_string (a b : js_string) : bool :=
  match a, b with
  | [], [] => true
  | x :: a', y :: b' => (x =? y)%N && same_string a' b'
  | _, _ => false
  end.

Definition same_query (p q : Query) : bool :=
  match p, q with
  | SelectCount, SelectCount => true
  | Insert t c, Insert t' c' => same_string t t' && same_string c c'
  | SelectAll, SelectAll => true
  | Delete n, Delete m => n =? m
  | _, _ => false
  end.

(** [error] is null exactly on success. *)
Definition failed (r : Reply) : bool :=
  match r with
  | Resolved _ None => false
  | _ => true
  end.

Definition is_insert (q : Query) : bool :=
  match q with Insert _ _ => true | _ => false end.



End Store.

Import Store.

(** ** The page component *)

Module Page.

Local Open Scope string_scope.

(** The browser's recognition object behind the [recognition] handle:
    the two options set at creation, the two handler slots, and whether
    it is listening. *)
Record SpeechRecognition : Type := {
  continuous : bool;
  interimResults : bool;
  onresult : bool;
  onerror : bool;
  started : bool
}.

(** The six [useState] cells of [Home]. *)
Record State : Type := {
  isRecording : bool;
  transcription : js_string;
  savedTranscriptions : list Transcription;
  isLoading : bool;
  showDeleteConfirm : option Z;
  recognition : option SpeechRecognition
}.

Definition initial : State :=
  {| isRecording := false; transcription := []; savedTranscriptions := [];
     isLoading := false; showDeleteConfirm := None; recognition := None |}.

Definition set_isRecording (b : bool) (s : State) : State :=
  {| isRecording := b; transcription := transcription s;
     savedTranscriptions := savedTranscriptions s; isLoading := isLoading s;
     showDeleteConfirm := showDeleteConfirm s; recognition := recognition s |}.

Definition set_transcription (t : js_string) (s : State) : State :=
  {| isRecording := isRecording s; transcription := t;
     savedTranscriptions := savedTranscriptions s; isLoading := isLoading s;
     showDeleteConfirm := showDeleteConfirm s; recognition := recognition s |}.

Definition set_savedTranscriptions (l : list Transcription) (s : State) : State :=
  {| isRecording := isRecording s; transcription := transcription s;
     savedTranscriptions := l; isLoading := isLoading s;
     showDeleteConfirm := showDeleteConfirm s; recognition := recognition s |}.

Definition set_isLoading (b : bool) (s : State) : State :=
  {| isRecording := isRecording s; transcription := transcription s;
     savedTranscriptions := savedTranscriptions s; isLoading := b;
     showDeleteConfirm := showDeleteConfirm s; recognition := recognition s |}.

Definition set_showDeleteConfirm (o : option Z) (s : State) : State :=
  {| isRecording := isRecording s; transcription := transcription s;
     savedTranscriptions := savedTranscriptions s; isLoading := isLoading s;
     showDeleteConfirm := o; recognition := recognition s |}.

Definition set_recognition (o : option SpeechRecognition) (s : State) : State :=
  {| isRecording := isRecording s; transcription := transcription s;
     savedTranscriptions := savedTranscriptions s; isLoading := isLoading s;
     showDeleteConfirm := showDeleteConfirm s; recognition := o |}.

(** A write through the handle changes the object, not the handle. *)
Definition on_instance (f : SpeechRecognition -> SpeechRecognition) (s : State) : State :=
  set_recognition (option_map f (recognition s)) s.

Definition attach_onresult (r : SpeechRecognition) : SpeechRecognition :=
  {| continuous := continuous r; interimResults := interimResults r;
     onresult := true; onerror := onerror r; started := started r |}.

Definition attach_onerror (r : SpeechRecognition) : SpeechRecognition :=
  {| continuous := continuous r; interimResults := interimResults r;
     onresult := onresult r; onerror := true; started := started r |}.

Definition set_started (b : bool) (r : SpeechRecognition) : SpeechRecognition :=
  {| continuous := continuous r; interimResults := interimResults r;
     onresult := onresult r; onerror := onerror r; started := b |}.

(** *** Effects *)

Inductive Output : Type :=
| Alert (msg : string)
| ConsoleError (args : list string).

Inductive MediaReply : Type :=
| Granted
| Denied (reason : string).

(** A handler body.  [Done] falls through to the next statement,
    [Return] leaves the function (running the enclosing [finally]
    blocks), [Throw] raises.  [Await] and [AwaitUserMedia] are the
    suspension points; [Fork] calls an async function and drops its
    promise; [Current] reads what a handle points to at that moment. *)
Inductive Proc : Type :=
| Done
| Return
| Throw (e : string)
| Update (f : State -> State) (k : Proc)
| Emit (o : Output) (k : Proc)
| Await (q : Query) (k : Reply -> Proc)
| AwaitUserMedia (k : MediaReply -> Proc)
| NewDate (k : Z -> Proc)
| Current (k : State -> Proc)
| Fork (child : Proc) (k : Proc).

Fixpoint seq (p q : Proc) : Proc :=
  match p with
  | Done => q
  | Return => Return
  | Throw e => Throw e
  | Update f k => Update f (seq k q)
  | Emit o k => Emit o (seq k q)
  | Await r k => Await r (fun x => seq (k x) q)
  | AwaitUserMedia k => AwaitUserMedia (fun x => seq (k x) q)
  | NewDate k => NewDate (fun x => seq (k x) q)
  | Current k => Current (fun x => seq (k x) q)
  | Fork c k => Fork c (seq k q)
  end.

(** [try { p } catch (e) { h e }] *)
Fixpoint try_catch (p : Proc) (h : string -> Proc) : Proc :=
  match p with
  | Done => Done
  | Return => Return
  | Throw e => h e
  | Update f k => Update f (try_catch k h)
  | Emit o k => Emit o (try_catch k h)
  | Await r k => Await r (fun x => try_catch (k x) h)
  | AwaitUserMedia k => AwaitUserMedia (fun x => try_catch (k x) h)
  | NewDate k => NewDate (fun x => try_catch (k x) h)
  | Current k => Current (fun x => try_catch (k x) h)
  | Fork c k => Fork c (try_catch k h)
  end.

(** [try { p } finally { f }] *)
Fixpoint try_finally (p f : Proc) : Proc :=
  match p with
  | Done => f
  | Return => seq f Return
  | Throw e => seq f (Throw e)
  | Update g k => Update g (try_finally k f)
  | Emit o k => Emit o (try_finally k f)
  | Await r k => Await r (fun x => try_finally (k x) f)
  | AwaitUserMedia k => AwaitUserMedia (fun x => try_finally (k x) f)
  | NewDate k => NewDate (fun x => try_finally (k x) f)
  | Current k => Current (fun x => try_finally (k x) f)
  | Fork c k => Fork c (try_finally k f)
  end.

Declare Scope proc_scope.
Delimit Scope proc_scope with proc.
Bind Scope proc_scope with Proc.
Notation "p ;; q" := (seq p q) (at level 61, right associativity) : proc_scope.
Local Open Scope proc_scope.

(** [const {data, error} = await q]: a rejection of the awaited call is
    thrown at the [await]. *)
Definition await (q : Query)
    (k : option (list Transcription) -> option PostgrestError -> Proc) : Proc :=
  Await q (fun r =>
    match r with
    | Resolved data error => k data error
    | Rejected reason => Throw reason
    end).

Definition setIsRecording (b : bool) : Proc := Update (set_isRecording b) Done.
Definition setTranscription (t : js_string) : Proc := Update (set_transcription t) Done.
Definition setSavedTranscriptions (l : list Transcription) : Proc :=
  Update (set_savedTranscriptions l) Done.
Definition setIsLoading (b : bool) : Proc := Update (set_isLoading b) Done.
Definition setShowDeleteConfirm (o : option Z) : Proc :=
  Update (set_showDeleteConfirm o) Done.
Definition setRecognition (o : option SpeechRecognition) : Proc :=
  Update (set_recognition o) Done.

Definition alert (msg : string) : Proc := Emit (Alert msg) Done.
Definition console_error (args : list string) : Proc := Emit (ConsoleError args) Done.

(** [m || d] on strings *)
Definition or_else (m d : string) : string :=
  match m with EmptyString => d | _ => m end.

Definition Details : string := String "010" "Details:".

(** [recognition.start()] raises when the object is already listening;
    [recognition.stop()] never raises. *)
Definition recognition_start : Proc :=
  Current (fun now =>
    match recognition now with
    | Some r =>
        if started r then Throw "InvalidStateError"
        else Update (on_instance (set_started true)) Done
    | None => Done
    end).

Definition recognition_stop : Proc :=
  Update (on_instance (set_started false)) Done.

(** *** The handlers *)

(** [recognition.onresult]: the first alternative of every result,
    joined. *)
Definition onresult_handler (transcripts : list js_string) : Proc :=
  setTranscription (List.concat transcripts).

(** [recognition.onerror] *)
Definition onerror_handler (error : string) : Proc :=
  console_error ["Speech recognition error:"; error] ;;
  (if String.eqb error "not-allowed"
   then alert "Microphone access is required for speech recognition. Please allow microphone access and try again."
   else Done) ;;
  setIsRecording false ;;
  setIsLoading false.

(** [startRecording], as rendered in state [s] *)
Definition startRecording (s : State) : Proc :=
  match recognition s with
  | Some _ =>
      try_finally
        (try_catch
           (setIsLoading true ;;
            AwaitUserMedia (fun m =>
              match m with
              | Denied reason => Throw reason
              | Granted =>
                  Update (on_instance attach_onresult) Done ;;
                  Update (on_instance attach_onerror) Done ;;
                  recognition_start ;;
                  setIsRecording true
              end))
           (fun error =>
              console_error ["Error accessing microphone:"; error] ;;
              alert "Unable to access microphone. Please ensure microphone permissions are granted and try again." ;;
              setIsRecording false))
        (setIsLoading false)
  | None => Done
  end.

(** [loadSavedTranscriptions] *)
Definition loadSavedTranscriptions : Proc :=
  try_finally
    (try_catch
       (setIsLoading true ;;
        (* First verify the connection *)
        await SelectCount (fun _ connectionError =>
          match connectionError with
          | Some err =>
              console_error ["Supabase connection error:";
                             or_else (message err) "Unknown error";
                             Details; message err] ;;
              Return
          | None => Done
          end ;;
          await SelectAll (fun data error =>
            match error with
            | Some err =>
                console_error ["Error loading transcriptions:"; message err;
                               Details; message err]
            | None =>
                setSavedTranscriptions
                  (match data with Some rows => rows | None => [] end)
            end)))
       (fun e => console_error ["Unexpected error in loadSavedTranscriptions:"; e]))
    (setIsLoading false).

(** [stopRecording], as rendered in state [s] *)
Definition stopRecording (s : State) : Proc :=
  match recognition s with
  | Some _ => recognition_stop
  | None => Done
  end ;;
  (if negb (truthy (trim (transcription s)))
   then setIsRecording false ;; Return
   else Done) ;;
  try_finally
    (try_catch
       (setIsLoading true ;;
        (* First verify the connection *)
        await SelectCount (fun _ connectionError =>
          match connectionError with
          | Some err =>
              console_error ["Supabase connection error:";
                             or_else (message err) "Unknown error"] ;;
              alert "Failed to connect to the database. Please check your connection and try again." ;;
              setIsRecording false ;;
              Return
          | None => Done
          end ;;
          NewDate (fun now =>
            await (Insert (transcription s) (of_string (toISOString now)))
              (fun _ error =>
                 match error with
                 | Some err =>
                     console_error ["Error saving transcription:";
                                    or_else (message err) "Unknown error";
                                    Details; message err] ;;
                     alert "Failed to save transcription. Please try again."
                 | None => Fork loadSavedTranscriptions Done
                 end))))
       (fun e =>
          console_error ["Unexpected error in stopRecording:"; e] ;;
          alert "An unexpected error occurred. Please try again."))
    (setIsLoading false ;;
     setIsRecording false ;;
     setTranscription []).

(** [deleteTranscription] *)
Definition deleteTranscription (id : Z) : Proc :=
  try_finally
    (try_catch
       (setIsLoading true ;;
        await (Delete id) (fun _ error =>
          match error with
          | Some err =>
              console_error ["Error deleting transcription:"; message err] ;;
              alert "Failed to delete transcription. Please try again."
          | None => Fork loadSavedTranscriptions Done
          end))
       (fun e =>
          console_error ["Unexpected error in deleteTranscription:"; e] ;;
          alert "An unexpected error occurred. Please try again."))
    (setIsLoading false ;;
     setShowDeleteConfirm None).

(** The two mount effects: look the recognition constructor up and keep
    an instance if there is one; load the saved list. *)
Definition new_instance : SpeechRecognition :=
  {| continuous := true; interimResults := true;
     onresult := false; onerror := false; started := false |}.

Definition mount_effects (capability : bool) : Proc :=
  (if capability then setRecognition (Some new_instance) else Done) ;;
  Fork loadSavedTranscriptions Done.

End Page.

Import Page.

(** ** Running the handlers *)

Module Run.

(** What an observer at the page's boundary sees, in order. *)
Inductive Event : Type :=
| Request (q : Query)
| Response (q : Query) (r : Reply)
| MicRequest
| MicResponse (m : MediaReply)
| Shown (o : Output).

(** A handler parked at a suspension point. *)
Inductive Suspended : Type :=
| OnReply (q : Query) (k : Reply -> Proc)
| OnUserMedia (k : MediaReply -> Proc).

Record World : Type := {
  ui : State;
  trace : list Event;
  waiting : list Suspended
}.

Definition fresh (s : State) : World :=
  {| ui := s; trace := []; waiting := [] |}.

Definition update (f : State -> State) (w : World) : World :=
  {| ui := f (ui w); trace := trace w; waiting := waiting w |}.

Definition log (e : Event) (w : World) : World :=
  {| ui := ui w; trace := trace w ++ [e]; waiting := waiting w |}.

Definition park (t : Suspended) (w : World) : World :=
  {| ui := ui w; trace := trace w; waiting := waiting w ++ [t] |}.

Definition unpark (n : nat) (w : World) : World :=
  {| ui := ui w; trace := trace w;
     waiting := firstn n (waiting w) ++ skipn (S n) (waiting w) |}.

Inductive Settled : Type :=
| Fulfilled
| Failed (e : string).

(** Run a handler up to its first suspension point.  A handler that
    suspends is parked in the world and [None] is returned; a forked
    callee runs up to its own suspension point before its caller goes
    on. *)
Fixpoint start (now : Z) (p : Proc) (w : World) : World * option Settled :=
  match p with
  | Done | Return => (w, Some Fulfilled)
  | Throw e => (w, Some (Failed e))
  | Update f k => start now k (update f w)
  | Emit o k => start now k (log (Shown o) w)
  | Await q k => (park (OnReply q k) (log (Request q) w), None)
  | AwaitUserMedia k => (park (OnUserMedia k) (log MicRequest w), None)
  | NewDate k => start now (k now) w
  | Current k => start now (k (ui w)) w
  | Fork c k => start now k (fst (start now c w))
  end.

(** The collaborators' answers to one operation. *)
Record Env : Type := {
  reply : Query -> Reply;
  media : MediaReply;
  clock : Z
}.

(** Run one operation until its own promise settles: each of its awaits
    gets the environment's answer; what it forks is started and left
    parked. *)
Fixpoint exec (env : Env) (p : Proc) (w : World) : World * Settled :=
  match p with
  | Done | Return => (w, Fulfilled)
  | Throw e => (w, Failed e)
  | Update f k => exec env k (update f w)
  | Emit o k => exec env k (log (Shown o) w)
  | Await q k =>
      exec env (k (reply env q)) (log (Response q (reply env q)) (log (Request q) w))
  | AwaitUserMedia k =>
      exec env (k (media env)) (log (MicResponse (media env)) (log MicRequest w))
  | NewDate k => exec env (k (clock env)) w
  | Current k => exec env (k (ui w)) w
  | Fork c k => exec env k (fst (start (clock env) c w))
  end.

Fixpoint requests (t : list Event) : list Query :=
  match t with
  | Request q :: t' => q :: requests t'
  | _ :: t' => requests t'
  | [] => []
  end.

Fixpoint shown (t : list Event) : list Output :=
  match t with
  | Shown o :: t' => o :: shown t'
  | _ :: t' => shown t'
  | [] => []
  end.

Definition is_alert (o : Output) : bool :=
  match o with Alert _ => true | ConsoleError _ => false end.

(** Network events only. *)
Fixpoint network (t : list Event) : list Event :=
  match t with
  | Request q :: t' => Request q :: network t'
  | Response q r :: t' => Response q r :: network t'
  | _ :: t' => network t'
  | [] => []
  end.

(** Every request is answered before the next one is made; the last
    one may still be open. *)
Fixpoint one_at_a_time (t : list Event) : bool :=
  match t with
  | [] => true
  | [Request _] => true
  | Request q :: Response q' _ :: t' => same_query q q' && one_at_a_time t'
  | _ => false
  end.

(** The calls in flight: the queries of the parked handlers. *)
Fixpoint in_flight (l : list Suspended) : list Query :=
  match l with
  | OnReply q _ :: l' => q :: in_flight l'
  | OnUserMedia _ :: l' => in_flight l'
  | [] => []
  end.

(** *** The rendered list *)

(** A row shows Confirm/Cancel when [showDeleteConfirm === item.id]. *)
Definition armed (s : State) (item : Transcription) : bool :=
  match showDeleteConfirm s with
  | Some n => n =? id item
  | None => false
  end.

Definition armed_rows (s : State) : list Transcription :=
  filter (armed s) (savedTranscriptions s).

Definition has_row (s : State) (n : Z) : bool :=
  existsb (fun item => id item =? n) (savedTranscriptions s).

(** *** The page as an event-driven machine *)

Inductive Action : Type :=
| ClickRecord                       (* the record/stop button *)
| ClickDelete (n : Z)               (* the delete trigger of row [n] *)
| ClickConfirm (n : Z)              (* Confirm on the armed row [n] *)
| ClickCancel (n : Z)               (* Cancel on the armed row [n] *)
| Answer (i : nat) (r : Reply)      (* the [i]-th parked call is answered *)
| MediaAnswer (i : nat) (m : MediaReply)
| SpeechResult (transcripts : list js_string)
| SpeechError (error : string).

Definition guard (b : bool) (w : World) : option World :=
  if b then Some w else None.

(** An event of the recognition object reaches the page when the handler
    for it is attached; a recogniser can deliver its last result after
    [stop()]. *)
Definition listening (s : State) (slot : SpeechRecognition -> bool) : bool :=
  match recognition s with
  | Some r => slot r
  | None => false
  end.

Definition shows_confirm (s : State) (n : Z) : bool :=
  match showDeleteConfirm s with
  | Some m => m =? n
  | None => false
  end.

(** One turn of the event loop at time [now]; [None] when the action is
    not offered by the rendered page or the platform.  Every answer to a
    parked call is a turn, whatever it carries. *)
Definition step (now : Z) (a : Action) (w : World) : option World :=
  let s := ui w in
  match a with
  | ClickRecord =>
      (* disabled={isLoading}; onClick={isRecording ? stopRecording : startRecording} *)
      guard (negb (isLoading s))
        (fst (start now (if isRecording s then stopRecording s else startRecording s) w))
  | ClickDelete n =>
      guard (has_row s n && negb (shows_confirm s n))
        (fst (start now (setShowDeleteConfirm (Some n)) w))
  | ClickConfirm n =>
      (* disabled={isLoading} *)
      guard (has_row s n && shows_confirm s n && negb (isLoading s))
        (fst (start now (deleteTranscription n) w))
  | ClickCancel n =>
      guard (has_row s n && shows_confirm s n)
        (fst (start now (setShowDeleteConfirm None) w))
  | Answer i r =>
      match nth_error (waiting w) i with
      | Some (OnReply q k) =>
          Some (fst (start now (k r) (log (Response q r) (unpark i w))))
      | _ => None
      end
  | MediaAnswer i m =>
      match nth_error (waiting w) i with
      | Some (OnUserMedia k) =>
          Some (fst (start now (k m) (log (MicResponse m) (unpark i w))))
      | _ => None
      end
  | SpeechResult transcripts =>
      guard (listening s onresult)
        (fst (start now (onresult_handler transcripts) w))
  | SpeechError error =>
      guard (listening s onerror)
        (fst (start now (onerror_handler error)
                (update (on_instance (set_started false)) w)))
  end.

(** The page right after mounting. *)
Definition mount (capability : bool) (now : Z) : World :=
  fst (start now (mount_effects capability) (fresh initial)).

Inductive reachable (capability : bool) : World -> Prop :=
| reach_mount now : reachable capability (mount capability now)
| reach_step w now a w' :
    reachable capability w -> step now a w = Some w' -> reachable capability w'.

(** [answer_ok ok a w]: the answer that [a] brings, if it brings one to a
    parked call, is one that [ok] accepts. *)
Definition answer_ok (ok : Query -> Reply -> bool) (a : Action) (w : World) : bool :=
  match a with
  | Answer i r =>
      match nth_error (waiting w) i with
      | Some (OnReply q _) => ok q r
      | _ => true
      end
  | _ => true
  end.

(** The states reached while every answer of the store is accepted by
    [ok]. *)
Inductive reachable_under (ok : Query -> Reply -> bool) (capability : bool) :
  World -> Prop :=
| under_mount now : reachable_under ok capability (mount capability now)
| under_step w now a w' :
    reachable_under ok capability w ->
    answer_ok ok a w = true ->
    step now a w = Some w' ->
    reachable_under ok capability w'.

Definition any_answer (q : Query) (r : Reply) : bool := true.

(** The suspension a freshly called [loadSavedTranscriptions] is parked
    at. *)
Definition reload_parked : list Suspended :=
  waiting (fst (start 0 loadSavedTranscriptions (fresh initial))).

Fixpoint steps (l : list (Z * Action)) (w : World) : option World :=
  match l with
  | [] => Some w
  | (now, a) :: l' =>
      match step now a w with
      | Some w' => steps l' w'
      | None => None
      end
  end.

Definition after (l : list (Z * Action)) (w : World) : World :=
  match steps l w with
  | Some w' => w'
  | None => w
  end.

End Run.

Import Run.

(** ** Invariants of the event loop

    [maintains ok I p]: every state update [p] can make, now or after any
    of its suspension points, keeps [I], as long as the store's answers
    are among those [ok] accepts. *)

Module Inv.

Fixpoint maintains (ok : Query -> Reply -> bool) (I : State -> Prop)
    (p : Proc) : Prop :=
  match p with
  | Done | Return | Throw _ => True
  | Update f k => (forall s, I s -> I (f s)) /\ maintains ok I k
  | Emit _ k => maintains ok I k
  | Await q k => forall r, ok q r = true -> maintains ok I (k r)
  | AwaitUserMedia k => forall m, maintains ok I (k m)
  | NewDate k => forall t, maintains ok I (k t)
  | Current k => forall s, I s -> maintains ok I (k s)
  | Fork c k => maintains ok I c /\ maintains ok I k
  end.

Definition parked_maintains (ok : Query -> Reply -> bool) (I : State -> Prop)
    (t : Suspended) : Prop :=
  match t with
  | OnReply q k => forall r, ok q r = true -> maintains ok I (k r)
  | OnUserMedia k => forall m, maintains ok I (k m)
  end.

Definition holds (ok : Query -> Reply -> bool) (I : State -> Prop)
    (w : World) : Prop :=
  I (ui w) /\ Forall (parked_maintains ok I) (waiting w).

(** [quiet p]: [p] reaches no suspension point before it settles.
    [calm p]: [p] parks at most one handler, and so does every handler
    parked by it once it is resumed. *)
Fixpoint quiet (p : Proc) : Prop :=
  match p with
  | Done | Return | Throw _ => True
  | Update _ k | Emit _ k => quiet k
  | Await _ _ | AwaitUserMedia _ => False
  | NewDate k => forall t, quiet (k t)
  | Current k => forall s, quiet (k s)
  | Fork c k => quiet c /\ quiet k
  end.

Fixpoint calm (p : Proc) : Prop :=
  match p with
  | Done | Return | Throw _ => True
  | Update _ k | Emit _ k => calm k
  | Await _ k => forall r, calm (k r)
  | AwaitUserMedia k => forall m, calm (k m)
  | NewDate k => forall t, calm (k t)
  | Current k => forall s, calm (k s)
  | Fork c k => calm c /\ quiet k
  end.

Definition parked_calm (t : Suspended) : Prop :=
  match t with
  | OnReply _ k => forall r, calm (k r)
  | OnUserMedia k => forall m, calm (k m)
  end.


(** Nothing to record with. *)
Definition inert (s : State) : Prop :=
  recognition s = None /\ isRecording s = false.

End Inv.

Import Inv.

(** ** Concrete scenarios *)

Module Scenario.

(** Recording, with a draft of eleven characters. *)
Definition hello_world : State :=
  {| isRecording := true;
     transcription := of_string "hello world";
     savedTranscriptions := [];
     isLoading := false;
     showDeleteConfirm := None;
     recognition := Some (set_started true (attach_onerror (attach_onresult new_instance))) |}.

(** Recording, with a draft of one space. *)
Definition one_space : State :=
  {| isRecording := true;
     transcription := [32%N];
     savedTranscriptions := [];
     isLoading := false;
     showDeleteConfirm := None;
     recognition := Some (set_started true (attach_onerror (attach_onresult new_instance))) |}.

(** A store that accepts everything, on 14 November 2023. *)
Definition store_up : Env :=
  {| reply := fun _ => Resolved None None;
     media := Granted;
     clock := 1700000000000 |}.

(** A store that answers every call with an error. *)
Definition store_down : Env :=
  {| reply := fun _ => Resolved None (Some {| message := "connection refused" |});
     media := Granted;
     clock := 1700000000000 |}.

(** A store that is reachable but refuses the insert. *)
Definition insert_refused : Env :=
  {| reply := fun q =>
       if is_insert q
       then Resolved None (Some {| message := "permission denied" |})
       else Resolved None None;
     media := Granted;
     clock := 1700000000000 |}.

Definition two_rows : Reply :=
  Resolved
    (Some [ {| id := 8; text := of_string "second";
               created_at := of_string "2024-02-01T09:30:00.000Z" |};
            {| id := 7; text := of_string "first";
               created_at := of_string "2024-01-31T10:00:00.000Z" |} ])
    None.

(** The mount-time load brings two rows. *)
Definition loaded : list (Z * Action) :=
  [ (1, Answer 0 (Resolved None None));
    (2, Answer 0 two_rows) ].

(** Row 7 is deleted; while the reload that follows is probing, row 8 is
    armed and confirmed. *)
Definition delete_twice : list (Z * Action) :=
  loaded ++
  [ (3, ClickDelete 7);
    (4, ClickConfirm 7);
    (5, Answer 0 (Resolved None None));
    (6, ClickDelete 8);
    (7, ClickConfirm 8) ].

End Scenario.

Import Scenario.

(** ** What a resumed handler does *)

Module Resume.

(** [guarded R M p]: whenever [p], or a handler it parks, is resumed with
    an answer, the segment that runs has property [R] (after a store
    call) or [M] (after the permission prompt). *)
Fixpoint guarded (R : Query -> Reply -> Proc -> Prop)
    (M : MediaReply -> Proc -> Prop) (p : Proc) : Prop :=
  match p with
  | Done | Return | Throw _ => True
  | Update _ k | Emit _ k => guarded R M k
  | Await q k => forall r, R q r (k r) /\ guarded R M (k r)
  | AwaitUserMedia k => forall m, M m (k m) /\ guarded R M (k m)
  | NewDate k => forall t, guarded R M (k t)
  | Current k => forall s, guarded R M (k s)
  | Fork c k => guarded R M c /\ guarded R M k
  end.

Definition parked_guarded (R : Query -> Reply -> Proc -> Prop)
    (M : MediaReply -> Proc -> Prop) (t : Suspended) : Prop :=
  guarded R M match t with
              | OnReply q k => Await q k
              | OnUserMedia k => AwaitUserMedia k
              end.

(** The segment ends with [isLoading] false unless it parks a handler. *)
Definition resting (p : Proc) : Prop :=
  forall now w,
    waiting (fst (start now p w)) = waiting w ->
    isLoading (ui (fst (start now p w))) = false.

(** Started with [isLoading] false, the segment ends with [isLoading]
    false unless it parks a handler. *)
Definition idle_stays (p : Proc) : Prop :=
  forall now w,
    isLoading (ui w) = false ->
    waiting (fst (start now p w)) = waiting w ->
    isLoading (ui (fst (start now p w))) = false.

(** The segment leaves the saved list alone. *)
Definition leaves_list (p : Proc) : Prop :=
  forall now w,
    savedTranscriptions (ui (fst (start now p w))) = savedTranscriptions (ui w).

(** [data || []] *)
Definition or_empty (data : option (list Transcription)) : list Transcription :=
  match data with Some rows => rows | None => [] end.

(** The segment leaves the saved list alone, or it follows a select that
    brought [data] without error and sets the list to it. *)
Definition list_from_select (q : Query) (r : Reply) (p : Proc) : Prop :=
  leaves_list p
  \/ (q = SelectAll /\ exists data, r = Resolved data None
      /\ forall now w, savedTranscriptions (ui (fst (start now p w))) = or_empty data).

(** The relations used for three invariants of the event loop. *)
Definition spinner_R (q : Query) (r : Reply) (p : Proc) : Prop := resting p.
Definition spinner_M (m : MediaReply) (p : Proc) : Prop := resting p.

Definition spinner_inv (w : World) : Prop :=
  (isLoading (ui w) = true -> waiting w <> [])
  /\ Forall (parked_guarded spinner_R spinner_M) (waiting w).

Definition list_M (m : MediaReply) (p : Proc) : Prop := leaves_list p.

(** The handle points to an instance set up as at mount, and while
    [isRecording] is true both handlers are attached to it. *)
Definition configured (s : State) : Prop :=
  exists r, recognition s = Some r
            /\ continuous r = true /\ interimResults r = true
            /\ (isRecording s = true -> onresult r = true /\ onerror r = true).

Definition keeps (p : Proc) : Prop :=
  forall now w, configured (ui w) -> configured (ui (fst (start now p w))).

Definition inst_R (q : Query) (r : Reply) (p : Proc) : Prop := keeps p.
Definition inst_M (m : MediaReply) (p : Proc) : Prop := keeps p.

End Resume.

Import Resume.

(** ** The second variant of the page

    The source file holds a second, earlier variant of the component: no
    [isLoading], no [showDeleteConfirm], no delete, records without [id].
    Its [stopRecording] and [loadSavedTranscriptions] are embedded here
    over the same state; they leave the cells the variant does not have
    alone.  Its [startRecording] works on a recognition instance local to
    the call, which no state cell holds, and is not embedded. *)

Module Variant2.

Local Open Scope string_scope.
Local Open Scope proc_scope.

(** [loadSavedTranscriptions] of the second variant: no [isLoading], no
    [finally]. *)
Definition loadSavedTranscriptions : Proc :=
  try_catch
    ((* First verify the connection *)
     await SelectCount (fun _ connectionError =>
       match connectionError with
       | Some err =>
           console_error ["Supabase connection error:";
                          or_else (message err) "Unknown error";
                          Details; message err] ;;
           Return
       | None => Done
       end ;;
       await SelectAll (fun data error =>
         match error with
         | Some err =>
             console_error ["Error loading transcriptions:"; message err;
                            Details; message err]
         | None =>
             setSavedTranscriptions
               (match data with Some rows => rows | None => [] end)
         end)))
    (fun e => console_error ["Unexpected error in loadSavedTranscriptions:"; e]).

(** [stopRecording] of the second variant, as rendered in state [s]: the
    two setters that close it come after the [try], not in a [finally]. *)
Definition stopRecording (s : State) : Proc :=
  match recognition s with
  | Some _ => recognition_stop
  | None => Done
  end ;;
  (if negb (truthy (trim (transcription s)))
   then setIsRecording false ;; Return
   else Done) ;;
  try_catch
    ((* First verify the connection *)
     await SelectCount (fun _ connectionError =>
       match connectionError with
       | Some err =>
           console_error ["Supabase connection error:";
                          or_else (message err) "Unknown error"] ;;
           alert "Failed to connect to the database. Please check your connection and try again." ;;
           setIsRecording false ;;
           Return
       | None => Done
       end ;;
       NewDate (fun now =>
         await (Insert (transcription s) (of_string (toISOString now)))
           (fun _ error =>
              match error with
              | Some err =>
                  console_error ["Error saving transcription:";
                                 or_else (message err) "Unknown error";
                                 Details; message err] ;;
                  alert "Failed to save transcription. Please try again."
              | None => Fork loadSavedTranscriptions Done
              end))))
    (fun e =>
       console_error ["Unexpected error in stopRecording:"; e] ;;
       alert "An unexpected error occurred. Please try again.") ;;
  setIsRecording false ;;
  setTranscription [].

End Variant2.

(** ** More scenarios *)

Module Scenario2.

(** Mounted with a recognition instance, nothing going on. *)
Definition ready : State := set_recognition (Some new_instance) initial.

(** The list is loaded, recording is started, the permission is granted
    and two segments are recognised. *)
Definition recording : list (Z * Action) :=
  loaded ++
  [ (3, ClickRecord);
    (4, MediaAnswer 0 Granted);
    (5, SpeechResult [of_string "hello "; of_string "world"]) ].

(** While recording, the delete of row 7 is confirmed and not yet
    answered. *)
Definition deleting_while_recording : list (Z * Action) :=
  recording ++
  [ (6, ClickDelete 7);
    (7, ClickConfirm 7) ].

(** Two rows whose ids, 9007199254740992 and 9007199254740993 in the
    table, reach the page as the same number. *)
Definition twin_rows : Reply :=
  Resolved
    (Some [ {| id := 9007199254740992; text := of_string "second";
               created_at := of_string "2024-02-01T09:30:00.000Z" |};
            {| id := 9007199254740992; text := of_string "first";
               created_at := of_string "2024-01-31T10:00:00.000Z" |} ])
    None.

(** The mount-time load brings the two rows and the delete trigger of one
    of them is pressed. *)
Definition twins_armed : list (Z * Action) :=
  [ (1, Answer 0 (Resolved None None));
    (2, Answer 0 twin_rows);
    (3, ClickDelete 9007199254740992) ].

End Scenario2.

Import Scenario2.

#[local] Arguments toISOString : simpl never.
#[local] Arguments of_string : simpl never.
#[local] Arguments trim : simpl never.

Ltac reveal :=
  unfold stopRecording, startRecording, deleteTranscription,
    loadSavedTranscriptions, recognition_stop, recognition_start, await,
    setIsLoading, setIsRecording, setTranscription, setSavedTranscriptions,
    setShowDeleteConfirm, alert, console_error, reload_parked.

(** * Properties *)

(** ** Dates *)

Lemma digit_is_digit n : is_digit (digit n) = true.
Proof.
  unfold is_digit, digit.
  assert (H : 0 <= n mod 10 < 10) by (apply Z.mod_pos_bound; lia).
  rewrite N_ascii_embedding by lia.
  apply andb_true_intro; split; apply N.leb_le; lia.
Qed.

Lemma digit_value_digit n : digit_value (digit n) = n mod 10.
Proof.
  unfold digit_value, digit.
  assert (H : 0 <= n mod 10 < 10) by (apply Z.mod_pos_bound; lia).
  rewrite N_ascii_embedding by lia. lia.
Qed.

Lemma doe_range day : 0 <= day_of_era day < 146097.
Proof. unfold day_of_era. apply Z.mod_pos_bound. lia. Qed.

Lemma yoe_range doe : 0 <= doe < 146097 -> 0 <= year_of_era doe <= 399.
Proof. unfold year_of_era. intros. Z.div_mod_to_equations. lia. Qed.

Lemma doy_range doe : 0 <= doe < 146097 -> 0 <= day_of_year doe <= 365.
Proof.
  unfold day_of_year, year_of_era. intros. cbv zeta.
  Z.div_mod_to_equations. lia.
Qed.

Lemma month_index_range doy : 0 <= doy <= 365 -> 0 <= month_index doy <= 11.
Proof. unfold month_index. intros. Z.div_mod_to_equations. lia. Qed.

Lemma month_range day : 1 <= MonthFromDay day <= 12.
Proof.
  unfold MonthFromDay.
  pose proof (month_index_range _ (doy_range _ (doe_range day))) as H.
  destruct (Z.ltb_spec (month_index (day_of_year (day_of_era day))) 10); lia.
Qed.

Lemma date_range day : 1 <= DateFromDay day <= 31.
Proof.
  unfold DateFromDay. cbv zeta.
  pose proof (doy_range _ (doe_range day)) as H.
  revert H. generalize (day_of_year (day_of_era day)) as doy. intros doy H.
  unfold month_index. Z.div_mod_to_equations. lia.
Qed.

Lemma year_range t : valid_time t -> -272000 <= YearFromDay (Day t) <= 276000.
Proof.
  unfold valid_time, YearFromDay, Day, msPerDay. intros H.
  pose proof (yoe_range _ (doe_range (t / 86400000))) as Hy.
  assert (Hd : -100000000 <= t / 86400000 <= 100000000)
    by (Z.div_mod_to_equations; lia).
  revert Hy Hd. generalize (t / 86400000) as day. intros day Hy Hd.
  destruct (MonthFromDay day <=? 2).
  all: unfold era; revert Hy; generalize (year_of_era (day_of_era day));
    intros y Hy; Z.div_mod_to_equations; lia.
Qed.

Lemma hour_range t : 0 <= HourFromTime t <= 23.
Proof.
  unfold HourFromTime, TimeWithinDay, msPerDay. Z.div_mod_to_equations. lia.
Qed.

Lemma min_range t : 0 <= MinFromTime t <= 59.
Proof. unfold MinFromTime. Z.div_mod_to_equations. lia. Qed.

Lemma sec_range t : 0 <= SecFromTime t <= 59.
Proof. unfold SecFromTime. Z.div_mod_to_equations. lia. Qed.

Lemma number2_digits n : 0 <= n < 100 -> number2 (digit (n / 10)) (digit n) = n.
Proof.
  intros H. unfold number2. rewrite !digit_value_digit.
  Z.div_mod_to_equations. lia.
Qed.

Lemma between_true lo x hi : lo <= x <= hi -> between lo x hi = true.
Proof.
  intros H. unfold between. apply andb_true_intro; split; apply Z.leb_le; lia.
Qed.

Lemma month_to_ms_wf t :
  time_wf (list_ascii_of_string (month_to_ms t "Z")) = true.
Proof.
  unfold month_to_ms. cbv zeta.
  cbn [list_ascii_of_string pad2 pad3 time_wf forallb].
  rewrite !digit_is_digit.
  pose proof (month_range (Day t)). pose proof (date_range (Day t)).
  pose proof (hour_range t). pose proof (min_range t). pose proof (sec_range t).
  rewrite !number2_digits by lia.
  rewrite !between_true by lia.
  reflexivity.
Qed.

Lemma zero_digit n : Ascii.eqb "0" (digit n) = true -> n mod 10 = 0.
Proof.
  intros H. apply Ascii.eqb_eq in H.
  pose proof (digit_value_digit n) as D. rewrite <- H in D.
  unfold digit_value in D. simpl in D. lia.
Qed.

(** The timestamp of any valid time value has the ISO-8601 UTC shape. *)
Lemma toISOString_wf t : valid_time t -> iso8601_utc_wf (toISOString t) = true.
Proof.
  intros Ht. pose proof (year_range t Ht) as Hy.
  unfold toISOString, year_string.
  generalize (month_to_ms_wf t).
  generalize (month_to_ms t "Z") as k, (YearFromDay (Day t)), Hy.
  clear. intros k y Hy Hwf.
  destruct (Z.leb_spec 0 y) as [H0|H0]; cbn [andb].
  - destruct (Z.leb_spec y 9999) as [H1|H1].
    + unfold iso8601_utc_wf, pad4, pad2. cbn [list_ascii_of_string forallb].
      rewrite !digit_is_digit. exact Hwf.
    + destruct (Z.ltb_spec y 0); [lia|].
      unfold iso8601_utc_wf, pad6, pad4, pad2.
      cbn [list_ascii_of_string forallb tl].
      rewrite !digit_is_digit. cbn. exact Hwf.
  - destruct (Z.ltb_spec y 0); [|lia].
    unfold iso8601_utc_wf, pad6, pad4, pad2.
    cbn [list_ascii_of_string forallb tl].
    rewrite !digit_is_digit.
    change (is_digit "-") with false. cbv iota.
    change (Ascii.eqb "-" "+") with false. change (Ascii.eqb "-" "-") with true.
    cbn [orb andb].
    destruct (Ascii.eqb "0" (digit (- y / 10000 / 10))) eqn:E1; cbn [andb negb]; [|exact Hwf].
    destruct (Ascii.eqb "0" (digit (- y / 10000))) eqn:E2; cbn [andb negb]; [|exact Hwf].
    destruct (Ascii.eqb "0" (digit (- y / 100 / 10))) eqn:E3; cbn [andb negb]; [|exact Hwf].
    destruct (Ascii.eqb "0" (digit (- y / 100))) eqn:E4; cbn [andb negb]; [|exact Hwf].
    destruct (Ascii.eqb "0" (digit (- y / 10))) eqn:E5; cbn [andb negb]; [|exact Hwf].
    destruct (Ascii.eqb (digit (- y)) "0") eqn:E6; cbn [andb negb]; [|exact Hwf].
    exfalso. rewrite Ascii.eqb_sym in E6.
    apply zero_digit in E1, E2, E3, E4, E5, E6.
    Z.div_mod_to_equations. lia.
Qed.

Example epoch_timestamp : toISOString 0 = "1970-01-01T00:00:00.000Z"%string.
Proof. reflexivity. Qed.

Example leap_day_timestamp :
  toISOString 951782400000 = "2000-02-29T00:00:00.000Z"%string.
Proof. reflexivity. Qed.

Example before_epoch_timestamp :
  toISOString (-1) = "1969-12-31T23:59:59.999Z"%string.
Proof. reflexivity. Qed.

Example last_timestamp :
  toISOString 8640000000000000 = "+275760-09-13T00:00:00.000Z"%string.
Proof. reflexivity. Qed.

Example first_timestamp :
  toISOString (-8640000000000000) = "-271821-04-20T00:00:00.000Z"%string.
Proof. reflexivity. Qed.

(** ** Trimming *)

Lemma trim_start_blank s :
  trim_start s = [] <-> forallb is_white_space s = true.
Proof.
  induction s as [|c s IH]; simpl.
  - tauto.
  - destruct (is_white_space c); simpl.
    + exact IH.
    + split; discriminate.
Qed.

Lemma trim_start_head s c r :
  trim_start s = c :: r -> is_white_space c = false.
Proof.
  induction s as [|d s IH]; simpl.
  - discriminate.
  - destruct (is_white_space d) eqn:E.
    + exact IH.
    + intros H. injection H as -> _. exact E.
Qed.

(** The trimmed draft is empty exactly when the draft is empty or made of
    white space only. *)
Lemma trim_blank s : trim s = [] <-> forallb is_white_space s = true.
Proof.
  unfold trim, trim_end. split.
  - intros H. apply trim_start_blank.
    destruct (trim_start s) as [|c r] eqn:E; [reflexivity|].
    apply (f_equal (@rev _)) in H. rewrite rev_involutive in H. simpl in H.
    apply trim_start_blank in H. rewrite forallb_forall in H.
    apply trim_start_head in E.
    rewrite (H c) in E; [discriminate|].
    apply in_or_app. right. left. reflexivity.
  - intros H. apply trim_start_blank in H. rewrite H. reflexivity.
Qed.

Lemma truthy_trim s : truthy (trim s) = negb (forallb is_white_space s).
Proof.
  destruct (forallb is_white_space s) eqn:E.
  - apply trim_blank in E. rewrite E. reflexivity.
  - destruct (trim s) eqn:T; [|reflexivity].
    apply trim_blank in T. congruence.
Qed.


(** ** One operation at a time *)

Lemma truthy_true s : trim s <> [] -> truthy (trim s) = true.
Proof. destruct (trim s); [congruence|reflexivity]. Qed.

Lemma truthy_false s : forallb is_white_space s = true -> truthy (trim s) = false.
Proof. intros H. rewrite truthy_trim, H. reflexivity. Qed.

Lemma same_string_refl a : same_string a a = true.
Proof.
  induction a as [|x a IH]; simpl; [reflexivity|].
  rewrite N.eqb_refl. exact IH.
Qed.

Ltac settle :=
  cbn;
  repeat match goal with
         | |- _ /\ _ => split
         | |- _ \/ _ => first [left; reflexivity | right]
         | |- _ = _ => reflexivity
         end.

(** Saving and loading do ask for the count first. *)
Lemma stop_probes_first env s :
  trim (transcription s) <> [] ->
  hd_error (requests (trace (fst (exec env (stopRecording s) (fresh s)))))
  = Some SelectCount.
Proof.
  intros Hdraft. reveal. rewrite (truthy_true _ Hdraft).
  destruct (recognition s); cbn.
  all: destruct (reply env SelectCount) as [d [e|]|y]; cbn; try reflexivity.
  all: destruct (reply env (Insert _ _)) as [d' [e|]|y]; reflexivity.
Qed.

Lemma load_probes_first env s :
  hd_error (requests (trace (fst (exec env loadSavedTranscriptions (fresh s)))))
  = Some SelectCount.
Proof.
  cbn. destruct (reply env SelectCount) as [d [e|]|y]; cbn; try reflexivity.
  destruct (reply env SelectAll) as [d' [e|]|y]; reflexivity.
Qed.

(** A load whose two calls succeed replaces the saved list by the rows it
    got. *)
Lemma load_replaces_list env s d rows :
  reply env SelectCount = Resolved d None ->
  reply env SelectAll = Resolved (Some rows) None ->
  savedTranscriptions (ui (fst (exec env loadSavedTranscriptions (fresh s)))) = rows.
Proof. intros H1 H2. cbn. rewrite H1. cbn. rewrite H2. reflexivity. Qed.

(** C1: [deleteTranscription] does not ask for the count: whatever the
    store answers, the first call it makes is the delete itself. *)
Theorem delete_skips_probe env s n :
  hd_error (requests (trace (fst (exec env (deleteTranscription n) (fresh s)))))
  = Some (Delete n).
Proof.
  cbn. destruct (reply env (Delete n)) as [d [e|]|y]; reflexivity.
Qed.

Example delete_7_store_down :
  requests (trace (fst (exec store_down (deleteTranscription 7) (fresh initial))))
  = [Delete 7].
Proof. reflexivity. Qed.

(** C2: stopping with a draft that is not blank, when the probe succeeds,
    makes exactly one insert; it carries the draft as it is and the
    clock's reading as an ISO-8601 UTC timestamp; when the insert
    succeeds, [loadSavedTranscriptions] is started. *)
Theorem stop_saves_draft_once env s data :
  trim (transcription s) <> [] ->
  reply env SelectCount = Resolved data None ->
  valid_time (clock env) ->
  let stamp := toISOString (clock env) in
  let q := Insert (transcription s) (of_string stamp) in
  let w := fst (exec env (stopRecording s) (fresh s)) in
  filter is_insert (requests (trace w)) = [q]
  /\ iso8601_utc_wf stamp = true
  /\ (failed (reply env q) = false -> waiting w = reload_parked).
Proof.
  intros Hdraft Hprobe Hclock stamp q w.
  split; [|split; [apply toISOString_wf; exact Hclock|]]; subst w q stamp.
  all: reveal; rewrite (truthy_true _ Hdraft).
  all: destruct (recognition s); cbn; rewrite Hprobe; cbn.
  all: destruct (reply env (Insert _ _)) as [d [e|]|y]; cbn.
  all: try reflexivity; discriminate.
Qed.

Lemma stop_saves_draft_once_witness :
  trim (transcription hello_world) <> []
  /\ reply store_up SelectCount = Resolved None None
  /\ valid_time (clock store_up)
  /\ filter is_insert
       (requests (trace (fst (exec store_up (stopRecording hello_world)
                                (fresh hello_world)))))
     = [Insert (of_string "hello world") (of_string "2023-11-14T22:13:20.000Z")]
  /\ waiting (fst (exec store_up (stopRecording hello_world) (fresh hello_world)))
     = reload_parked.
Proof.
  assert (H1 : trim (transcription hello_world) <> []) by (vm_compute; discriminate).
  assert (H2 : reply store_up SelectCount = Resolved None None) by reflexivity.
  assert (H3 : valid_time (clock store_up)) by (unfold valid_time; simpl; lia).
  destruct (stop_saves_draft_once store_up hello_world None H1 H2 H3)
    as (Hq & _ & Hload).
  exact (conj H1 (conj H2 (conj H3 (conj Hq (Hload eq_refl))))).
Defined.

(** C3: stopping with an empty or white-space-only draft makes no call at
    all, parks nothing, and sets [isRecording] to false. *)
Theorem blank_stop_stays_local env s :
  forallb is_white_space (transcription s) = true ->
  let w := fst (exec env (stopRecording s) (fresh s)) in
  trace w = [] /\ waiting w = [] /\ isRecording (ui w) = false
  /\ snd (exec env (stopRecording s) (fresh s)) = Fulfilled.
Proof.
  intros Hblank w. subst w. reveal. rewrite (truthy_false _ Hblank).
  destruct (recognition s); cbn; auto.
Qed.

Lemma blank_stop_stays_local_witness :
  forallb is_white_space (transcription one_space) = true
  /\ trace (fst (exec store_up (stopRecording one_space) (fresh one_space))) = []
  /\ waiting (fst (exec store_up (stopRecording one_space) (fresh one_space))) = []
  /\ isRecording (ui (fst (exec store_up (stopRecording one_space) (fresh one_space))))
     = false.
Proof.
  assert (H : forallb is_white_space (transcription one_space) = true)
    by reflexivity.
  destruct (blank_stop_stays_local store_up one_space H) as (H1 & H2 & H3 & _).
  exact (conj H (conj H1 (conj H2 H3))).
Defined.

(** C4, as the code has it: a stop that gets past the blank-draft guard
    ends with the draft cleared, whatever the probe and the insert answer;
    a stop that the guard ends leaves the draft as it was. *)
Theorem stop_clears_draft_past_guard env s :
  transcription (ui (fst (exec env (stopRecording s) (fresh s))))
  = if truthy (trim (transcription s)) then [] else transcription s.
Proof.
  reveal. destruct (truthy (trim (transcription s))).
  all: destruct (recognition s); cbn; try reflexivity.
  all: destruct (reply env SelectCount) as [d [e|]|y]; cbn; try reflexivity.
  all: destruct (reply env (Insert _ _)) as [d' [e|]|y]; reflexivity.
Qed.

(** C4 as stated fails: a draft of one space is still there after the
    stop. *)
Lemma stop_keeps_blank_draft :
  ~ (forall env s,
       transcription (ui (fst (exec env (stopRecording s) (fresh s)))) = []).
Proof. intros H. specialize (H store_up one_space). discriminate H. Qed.

(** C5: when the probe comes back with an error, saving makes no insert
    and shows an alert; loading makes no select, shows nothing but a
    console line, leaves the list alone and returns normally. *)
Theorem failed_probe_short_circuits env s data err :
  reply env SelectCount = Resolved data (Some err) ->
  (trim (transcription s) <> [] ->
   let w := fst (exec env (stopRecording s) (fresh s)) in
   requests (trace w) = [SelectCount]
   /\ waiting w = []
   /\ shown (trace w)
      = [ConsoleError ["Supabase connection error:"%string;
                       or_else (message err) "Unknown error"];
         Alert "Failed to connect to the database. Please check your connection and try again."])
  /\ (let w := fst (exec env loadSavedTranscriptions (fresh s)) in
      requests (trace w) = [SelectCount]
      /\ waiting w = []
      /\ filter is_alert (shown (trace w)) = []
      /\ shown (trace w)
         = [ConsoleError ["Supabase connection error:"%string;
                          or_else (message err) "Unknown error";
                          Details; message err]]
      /\ savedTranscriptions (ui w) = savedTranscriptions s
      /\ snd (exec env loadSavedTranscriptions (fresh s)) = Fulfilled).
Proof.
  intros Hprobe. split.
  - intros Hdraft w. subst w. reveal. rewrite (truthy_true _ Hdraft).
    destruct (recognition s); cbn; rewrite Hprobe; cbn; auto.
  - cbn. rewrite Hprobe. cbn. repeat split.
Qed.

Lemma failed_probe_short_circuits_witness :
  reply store_down SelectCount
  = Resolved None (Some {| message := "connection refused" |})
  /\ trim (transcription hello_world) <> []
  /\ requests (trace (fst (exec store_down (stopRecording hello_world)
                             (fresh hello_world))))
     = [SelectCount]
  /\ requests (trace (fst (exec store_down loadSavedTranscriptions
                             (fresh hello_world))))
     = [SelectCount].
Proof.
  assert (H1 : reply store_down SelectCount
               = Resolved None (Some {| message := "connection refused" |}))
    by reflexivity.
  assert (H2 : trim (transcription hello_world) <> [])
    by (vm_compute; discriminate).
  destruct (failed_probe_short_circuits store_down hello_world _ _ H1)
    as (Hsave & Hload & _).
  destruct (Hsave H2) as (Hs & _).
  exact (conj H1 (conj H2 (conj Hs Hload))).
Defined.

(** C6: however the store answers the delete (success, error, rejection),
    [showDeleteConfirm] is null when [deleteTranscription] is over. *)
Theorem delete_always_disarms env s n :
  showDeleteConfirm (ui (fst (exec env (deleteTranscription n) (fresh s)))) = None.
Proof.
  cbn. destruct (reply env (Delete n)) as [d [e|]|y]; reflexivity.
Qed.

(** C10: neither mutation touches the saved list itself, and the reload
    is started exactly when the mutation's answer carries no error: after
    a failed insert or delete nothing is left that could change the list. *)
Theorem failed_mutation_keeps_list env s n data :
  (trim (transcription s) <> [] ->
   reply env SelectCount = Resolved data None ->
   let q := Insert (transcription s) (of_string (toISOString (clock env))) in
   let w := fst (exec env (stopRecording s) (fresh s)) in
   savedTranscriptions (ui w) = savedTranscriptions s
   /\ waiting w = if failed (reply env q) then [] else reload_parked)
  /\ (let w := fst (exec env (deleteTranscription n) (fresh s)) in
      savedTranscriptions (ui w) = savedTranscriptions s
      /\ waiting w = if failed (reply env (Delete n)) then [] else reload_parked).
Proof.
  split.
  - intros Hdraft Hprobe q w. subst q w. reveal. rewrite (truthy_true _ Hdraft).
    destruct (recognition s); cbn; rewrite Hprobe; cbn.
    all: destruct (reply env (Insert _ _)) as [d' [e'|]|y']; cbn.
    all: split; reflexivity.
  - cbn. destruct (reply env (Delete n)) as [d [e|]|y]; cbn.
    all: split; reflexivity.
Qed.

Lemma failed_mutation_keeps_list_witness :
  trim (transcription hello_world) <> []
  /\ reply insert_refused SelectCount = Resolved None None
  /\ savedTranscriptions
       (ui (fst (exec insert_refused (stopRecording hello_world) (fresh hello_world))))
     = savedTranscriptions hello_world
  /\ waiting (fst (exec insert_refused (stopRecording hello_world) (fresh hello_world)))
     = []
  /\ waiting (fst (exec store_down (deleteTranscription 7) (fresh hello_world)))
     = [].
Proof.
  assert (H1 : trim (transcription hello_world) <> [])
    by (vm_compute; discriminate).
  assert (H2 : reply insert_refused SelectCount = Resolved None None)
    by reflexivity.
  destruct (failed_mutation_keeps_list insert_refused hello_world 7 None)
    as (Hs & _).
  destruct (failed_mutation_keeps_list store_down hello_world 7 None)
    as (_ & _ & Hd).
  destruct (Hs H1 H2) as (Hs1 & Hs2).
  exact (conj H1 (conj H2 (conj Hs1 (conj Hs2 Hd)))).
Defined.

(** ** The event loop *)

Lemma in_firstn {A} n (l : list A) x : In x (firstn n l) -> In x l.
Proof.
  revert l. induction n as [|n IH]; intros [|y l]; simpl; try tauto.
  intros [H|H]; auto.
Qed.

Lemma in_skipn {A} n (l : list A) x : In x (skipn n l) -> In x l.
Proof.
  revert l. induction n as [|n IH]; intros [|y l]; simpl; try tauto.
  intros H. right. apply IH. exact H.
Qed.

Lemma guard_some b w w' : guard b w = Some w' -> b = true /\ w' = w.
Proof. destruct b; simpl; [intros [= <-]; auto | discriminate]. Qed.

Lemma Some_eq {A} (x y : A) : Some x = Some y -> y = x.
Proof. intros [= ->]. reflexivity. Qed.

(** *** What every handler maintains *)

Section Maintained.

Variable ok : Query -> Reply -> bool.
Variable I : State -> Prop.

Lemma maintains_seq p q : maintains ok I p -> maintains ok I q -> maintains ok I (p ;; q).
Proof.
  intros Hp Hq. induction p; simpl in *; intuition auto.
Qed.

Lemma maintains_try_catch p h :
  maintains ok I p -> (forall e, maintains ok I (h e)) -> maintains ok I (try_catch p h).
Proof.
  intros Hp Hh. induction p; simpl in *; intuition auto.
Qed.

Lemma maintains_try_finally p f :
  maintains ok I p -> maintains ok I f -> maintains ok I (try_finally p f).
Proof.
  intros Hp Hf. induction p; simpl in *; intuition auto.
  all: apply maintains_seq; simpl; auto.
Qed.

Lemma holds_update f w : (forall s, I s -> I (f s)) -> holds ok I w -> holds ok I (update f w).
Proof. intros Hf [Hs Hw]. split; simpl; auto. Qed.

Lemma holds_log e w : holds ok I w -> holds ok I (log e w).
Proof. intros [Hs Hw]. split; simpl; auto. Qed.

Lemma holds_park t w : parked_maintains ok I t -> holds ok I w -> holds ok I (park t w).
Proof.
  intros Ht [Hs Hw]. split; simpl; auto.
  apply Forall_app. split; auto.
Qed.

Lemma holds_unpark n w : holds ok I w -> holds ok I (unpark n w).
Proof.
  intros [Hs Hw]. split; simpl; auto.
  rewrite Forall_forall in *. intros t Ht. apply Hw.
  apply in_app_or in Ht. destruct Ht as [Ht|Ht].
  - eapply in_firstn; eauto.
  - eapply (in_skipn (S n)); eauto.
Qed.

Lemma start_holds now p :
  forall w, maintains ok I p -> holds ok I w -> holds ok I (fst (start now p w)).
Proof.
  induction p as [ | | e | f k IH | o k IH | q k IH | k IH | k IH | k IH
                 | c IHc k IHk ]; simpl; intros w Hp Hw.
  - exact Hw.
  - exact Hw.
  - exact Hw.
  - destruct Hp as [Hf Hk].
    apply IH; [exact Hk | apply holds_update; assumption].
  - apply IH; [exact Hp | apply holds_log; exact Hw].
  - apply holds_park; [exact Hp | apply holds_log; exact Hw].
  - apply holds_park; [exact Hp | apply holds_log; exact Hw].
  - apply IH; [apply Hp | exact Hw].
  - apply IH; [apply Hp; apply Hw | exact Hw].
  - destruct Hp as [Hc Hk]. apply IHk; [exact Hk | apply IHc; assumption].
Qed.

End Maintained.

Section Stable.

Variable ok : Query -> Reply -> bool.
Variable I : State -> Prop.

Hypothesis I_isRecording_false : forall s, I s -> I (set_isRecording false s).
Hypothesis I_transcription : forall t s, I s -> I (set_transcription t s).
Hypothesis I_isLoading : forall b s, I s -> I (set_isLoading b s).
Hypothesis I_showDeleteConfirm : forall o s, I s -> I (set_showDeleteConfirm o s).
Hypothesis I_instance : forall f s, I s -> I (on_instance f s).
Hypothesis I_saved :
  forall data s, ok SelectAll (Resolved data None) = true -> I s ->
                 I (set_savedTranscriptions
                      (match data with Some rows => rows | None => [] end) s).
Hypothesis I_start : forall s, I s -> maintains ok I (startRecording s).

Lemma load_maintains : maintains ok I loadSavedTranscriptions.
Proof.
  unfold loadSavedTranscriptions. simpl. split; [auto|].
  intros [d [err|]|why] _; simpl; auto.
  intros [data [err|]|why] Hok; simpl; auto.
Qed.

Lemma stop_maintains s : maintains ok I (stopRecording s).
Proof.
  unfold stopRecording.
  apply maintains_seq; [destruct (recognition s); simpl; auto|].
  apply maintains_seq; [destruct (negb _); simpl; auto|].
  simpl. split; [auto|].
  intros [d [err|]|why] _; simpl; auto 6.
  intros t [d' [err|]|why] _; simpl; auto 6.
  split; [exact load_maintains|]. auto 6.
Qed.

Lemma delete_maintains n : maintains ok I (deleteTranscription n).
Proof.
  unfold deleteTranscription. simpl. split; [auto|].
  intros [d [err|]|why] _; simpl; auto 6.
  split; [exact load_maintains|]. auto 6.
Qed.

Lemma onerror_maintains e : maintains ok I (onerror_handler e).
Proof.
  unfold onerror_handler. simpl. destruct (String.eqb _ _); simpl; auto.
Qed.

Lemma step_holds now a w w' :
  holds ok I w -> answer_ok ok a w = true -> step now a w = Some w' ->
  holds ok I w'.
Proof.
  intros Hw Hans. unfold step.
  destruct a as [ | n | n | n | i r | i m | ts | e ].
  - intros H. apply guard_some in H as [_ ->].
    apply start_holds; [|exact Hw].
    destruct (isRecording (ui w)); [apply stop_maintains | apply I_start, Hw].
  - intros H. apply guard_some in H as [_ ->].
    apply start_holds; [|exact Hw]. simpl; auto.
  - intros H. apply guard_some in H as [_ ->].
    apply start_holds; [|exact Hw]. apply delete_maintains.
  - intros H. apply guard_some in H as [_ ->].
    apply start_holds; [|exact Hw]. simpl; auto.
  - simpl in Hans.
    destruct (nth_error (waiting w) i) as [[q k|k]|] eqn:E; try discriminate.
    intros H. apply Some_eq in H as ->.
    apply start_holds; [|apply holds_log, holds_unpark, Hw].
    destruct Hw as [_ Hw]. rewrite Forall_forall in Hw.
    apply (Hw _ (nth_error_In _ _ E)). exact Hans.
  - destruct (nth_error (waiting w) i) as [[q k|k]|] eqn:E; try discriminate.
    intros H. apply Some_eq in H as ->.
    apply start_holds; [|apply holds_log, holds_unpark, Hw].
    destruct Hw as [_ Hw]. rewrite Forall_forall in Hw.
    apply (Hw _ (nth_error_In _ _ E)).
  - intros H. apply guard_some in H as [_ ->].
    apply start_holds; [|exact Hw]. simpl; auto.
  - intros H. apply guard_some in H as [_ ->].
    apply start_holds; [apply onerror_maintains|].
    apply holds_update; auto.
Qed.

Lemma reachable_holds capability :
  (forall now, holds ok I (mount capability now)) ->
  forall w, reachable_under ok capability w -> holds ok I w.
Proof.
  intros Hmount w Hw. induction Hw as [now | w now a w' _ IH Hans Hstep].
  - apply Hmount.
  - eapply step_holds; eauto.
Qed.

End Stable.

Lemma steps_reachable capability l :
  forall w w', reachable capability w -> steps l w = Some w' ->
               reachable capability w'.
Proof.
  induction l as [|[now a] l IH]; simpl; intros w w' Hw H.
  - apply Some_eq in H as ->. exact Hw.
  - destruct (step now a w) as [w1|] eqn:E; [|discriminate].
    apply (IH w1); [|exact H]. exact (reach_step _ _ _ _ _ Hw E).
Qed.

Lemma after_reachable capability l w :
  reachable capability w -> steps l w <> None -> reachable capability (after l w).
Proof.
  intros Hw H. unfold after.
  destruct (steps l w) as [w'|] eqn:E; [|congruence].
  exact (steps_reachable _ _ _ _ Hw E).
Qed.

Lemma any_answer_ok a w : answer_ok any_answer a w = true.
Proof.
  destruct a; simpl; try reflexivity.
  destruct (nth_error (waiting w) i) as [[q k|k]|]; reflexivity.
Qed.

Lemma reachable_any capability w :
  reachable capability w -> reachable_under any_answer capability w.
Proof.
  intros Hw. induction Hw as [now | w now a w' _ IH Hstep].
  - apply under_mount.
  - exact (under_step _ _ _ _ _ _ IH (any_answer_ok a w) Hstep).
Qed.

Lemma under_reachable ok capability w :
  reachable_under ok capability w -> reachable capability w.
Proof.
  intros Hw. induction Hw as [now | w now a w' _ IH _ Hstep].
  - apply reach_mount.
  - exact (reach_step _ _ _ _ _ IH Hstep).
Qed.

(** *** The saved list while the answers carry distinct ids *)












Example twins_both_armed :
  map text (armed_rows (ui (after twins_armed (mount true 0))))
  = [of_string "second"; of_string "first"].
Proof. reflexivity. Qed.

(** *** No recognition capability *)

Lemma inert_setter (f : State -> State) :
  (forall s, recognition (f s) = recognition s) ->
  (forall s, isRecording s = false -> isRecording (f s) = false) ->
  forall s, inert s -> inert (f s).
Proof. intros Hr Hi s [H1 H2]. split; [rewrite Hr; exact H1 | auto]. Qed.

Lemma reachable_inert w : reachable false w -> inert (ui w).
Proof.
  intros Hw. apply reachable_any in Hw.
  apply (reachable_holds any_answer inert) with (capability := false);
    [ apply inert_setter; reflexivity
    | intros t; apply inert_setter; auto
    | intros b; apply inert_setter; auto
    | intros o; apply inert_setter; auto
    | | intros data s _; apply inert_setter; auto
    | | | exact Hw ].
  - intros f s [H1 H2]. split; [|exact H2].
    unfold on_instance. simpl. rewrite H1. reflexivity.
  - intros s [H1 _]. unfold startRecording. rewrite H1. exact Logic.I.
  - intros now. split; simpl; [split; reflexivity|].
    repeat constructor.
    intros [d [err|]|why] _; simpl; auto 6 using inert_setter.
    intros [[rows|] [err|]|why] _; simpl; auto 6 using inert_setter.
Qed.

(** C8: on a platform without speech recognition the handle stays null in
    every reachable state; [startRecording] then ends at once, without
    raising, and leaves the state, the trace and the parked handlers as
    they were; the record button does nothing. *)
Theorem no_capability_is_inert w :
  reachable false w ->
  recognition (ui w) = None
  /\ (forall env, exec env (startRecording (ui w)) w = (w, Fulfilled))
  /\ (forall now w', step now ClickRecord w = Some w' -> w' = w).
Proof.
  intros Hw. destruct (reachable_inert w Hw) as [Hrec Hoff].
  split; [exact Hrec|split].
  - intros env. unfold startRecording. rewrite Hrec. reflexivity.
  - intros now w' H. unfold step in H. apply guard_some in H as [_ ->].
    rewrite Hoff. unfold startRecording. rewrite Hrec. reflexivity.
Qed.

Lemma no_capability_is_inert_witness :
  reachable false (after loaded (mount false 0))
  /\ recognition (ui (after loaded (mount false 0))) = None
  /\ exec store_up (startRecording (ui (after loaded (mount false 0))))
       (after loaded (mount false 0))
     = (after loaded (mount false 0), Fulfilled).
Proof.
  assert (H0 : reachable false (after loaded (mount false 0))).
  { apply after_reachable; [apply reach_mount | vm_compute; discriminate]. }
  destruct (no_capability_is_inert _ H0) as (H1 & H2 & _).
  exact (conj H0 (conj H1 (H2 store_up))).
Defined.

(** *** Calls in flight *)

(** C9 as stated fails: once the delete of row 7 has succeeded, the
    reload it started is still probing when the delete of row 8 is
    confirmed; two calls are then in flight. *)
Lemma reload_overlaps_next_call :
  ~ (forall capability w,
       reachable capability w -> (List.length (in_flight (waiting w)) <= 1)%nat).
Proof.
  intros H.
  specialize (H true (after delete_twice (mount true 0))).
  assert (Hr : reachable true (after delete_twice (mount true 0))).
  { apply after_reachable; [apply reach_mount|]. vm_compute. discriminate. }
  specialize (H Hr). vm_compute in H. lia.
Qed.

Example overlapping_calls :
  in_flight (waiting (after delete_twice (mount true 0))) = [SelectCount; Delete 8]
  /\ isLoading (ui (after delete_twice (mount true 0))) = true.
Proof. split; reflexivity. Qed.

Lemma stop_in_sequence env s :
  let w := fst (exec env (stopRecording s) (fresh s)) in
  let insert := Insert (transcription s) (of_string (toISOString (clock env))) in
  let saved := truthy (trim (transcription s))
               && negb (failed (reply env SelectCount))
               && negb (failed (reply env insert)) in
  one_at_a_time (network (trace w)) = true
  /\ network (trace w)
     = (if truthy (trim (transcription s))
        then Request SelectCount :: Response SelectCount (reply env SelectCount)
             :: (if failed (reply env SelectCount) then []
                 else Request insert :: Response insert (reply env insert)
                      :: (if failed (reply env insert) then []
                          else [Request SelectCount]))
        else [])
  /\ waiting w = (if saved then reload_parked else [])
  /\ isLoading (ui w)
     = (if truthy (trim (transcription s)) then false else isLoading s).
Proof.
  cbv zeta. reveal.
  destruct (truthy (trim (transcription s))); destruct (recognition s); cbn.
  all: try (destruct (reply env SelectCount) as [d0 [e0|]|y0]; cbn).
  all: try (destruct (reply env (Insert _ _)) as [d3 [e3|]|y3]; cbn).
  all: rewrite ?same_string_refl; settle.
Qed.

Lemma load_in_sequence env s :
  let w := fst (exec env loadSavedTranscriptions (fresh s)) in
  one_at_a_time (network (trace w)) = true /\ waiting w = [].
Proof.
  cbv zeta. reveal. cbn.
  destruct (reply env SelectCount) as [d0 [e0|]|y0]; cbn.
  all: try (destruct (reply env SelectAll) as [d1 [e1|]|y1]; cbn).
  all: settle.
Qed.

Lemma delete_in_sequence env s n :
  let w := fst (exec env (deleteTranscription n) (fresh s)) in
  one_at_a_time (network (trace w)) = true
  /\ network (trace w)
     = Request (Delete n) :: Response (Delete n) (reply env (Delete n))
       :: (if failed (reply env (Delete n)) then [] else [Request SelectCount])
  /\ waiting w = (if failed (reply env (Delete n)) then [] else reload_parked)
  /\ isLoading (ui w) = false.
Proof.
  cbv zeta. reveal. cbn.
  destruct (reply env (Delete n)) as [d2 [e2|]|y2]; cbn.
  all: rewrite ?Z.eqb_refl; settle.
Qed.

Lemma start_without_network env s :
  let w := fst (exec env (startRecording s) (fresh s)) in
  network (trace w) = [] /\ waiting w = [].
Proof.
  cbv zeta. reveal. destruct (recognition s) as [r|] eqn:E; cbn; [|settle].
  destruct (media env) as [|y4]; cbn; [|settle].
  rewrite E. cbn. destruct (started r); settle.
Qed.

(** C9, as the code has it: the calls of one operation are made one after
    another, each after the previous one was answered, and the probe of
    the reload that follows a successful insert or delete is made last.
    That reload is not awaited: exactly when the insert or the delete had
    no error, the operation is over with the reload parked at its probe,
    the probe requested and not answered, and [isLoading] false; in every
    other case nothing is left in flight. *)
Theorem calls_of_one_operation_in_sequence env s n :
  let stop := fst (exec env (stopRecording s) (fresh s)) in
  let load := fst (exec env loadSavedTranscriptions (fresh s)) in
  let del := fst (exec env (deleteTranscription n) (fresh s)) in
  let start := fst (exec env (startRecording s) (fresh s)) in
  let insert := Insert (transcription s) (of_string (toISOString (clock env))) in
  let saved := truthy (trim (transcription s))
               && negb (failed (reply env SelectCount))
               && negb (failed (reply env insert)) in
  let deleted := negb (failed (reply env (Delete n))) in
  one_at_a_time (network (trace stop)) = true
  /\ one_at_a_time (network (trace load)) = true
  /\ one_at_a_time (network (trace del)) = true
  /\ network (trace start) = []
  /\ waiting load = [] /\ waiting start = []
  /\ network (trace stop)
     = (if truthy (trim (transcription s))
        then Request SelectCount :: Response SelectCount (reply env SelectCount)
             :: (if failed (reply env SelectCount) then []
                 else Request insert :: Response insert (reply env insert)
                      :: (if failed (reply env insert) then []
                          else [Request SelectCount]))
        else [])
  /\ network (trace del)
     = Request (Delete n) :: Response (Delete n) (reply env (Delete n))
       :: (if deleted then [Request SelectCount] else [])
  /\ waiting stop = (if saved then reload_parked else [])
  /\ waiting del = (if deleted then reload_parked else [])
  /\ in_flight reload_parked = [SelectCount]
  /\ isLoading (ui stop)
     = (if truthy (trim (transcription s)) then false else isLoading s)
  /\ isLoading (ui del) = false.
Proof.
  cbv zeta.
  destruct (stop_in_sequence env s) as (S1 & S2 & S3 & S4).
  destruct (load_in_sequence env s) as [L1 L2].
  destruct (delete_in_sequence env s n) as (D1 & D2 & D3 & D4).
  destruct (start_without_network env s) as [R1 R2].
  refine (conj S1 (conj L1 (conj D1 (conj R1 (conj L2 (conj R2 (conj S2
           (conj _ (conj S3 (conj _ (conj eq_refl (conj S4 D4)))))))))))).
  - rewrite D2. destruct (failed (reply env (Delete n))); reflexivity.
  - rewrite D3. destruct (failed (reply env (Delete n))); reflexivity.
Qed.

Example delete_leaves_reload_in_flight :
  in_flight (waiting (fst (exec store_up (deleteTranscription 7) (fresh initial))))
  = [SelectCount]
  /\ isLoading (ui (fst (exec store_up (deleteTranscription 7) (fresh initial))))
     = false.
Proof. split; reflexivity. Qed.

Lemma quiet_start now p : forall w, quiet p -> waiting (fst (start now p w)) = waiting w.
Proof.
  induction p as [ | | e | f k IH | o k IH | q k IH | k IH | k IH | k IH
                 | c IHc k IHk ]; simpl; intros w Hp; try reflexivity.
  - rewrite IH; auto.
  - rewrite IH; auto.
  - contradiction.
  - contradiction.
  - apply IH, Hp.
  - apply IH, Hp.
  - destruct Hp as [Hc Hk]. rewrite IHk, IHc; auto.
Qed.

Lemma calm_start now p :
  forall w, calm p ->
    exists extra, waiting (fst (start now p w)) = waiting w ++ extra
                  /\ (List.length extra <= 1)%nat /\ Forall parked_calm extra.
Proof.
  induction p as [ | | e | f k IH | o k IH | q k IH | k IH | k IH | k IH
                 | c IHc k IHk ]; simpl; intros w Hp.
  1-3: exists []; rewrite app_nil_r; auto.
  - apply (IH (update f w) Hp).
  - apply (IH (log (Shown o) w) Hp).
  - exists [OnReply q k]. repeat split; auto.
  - exists [OnUserMedia k]. repeat split; auto.
  - apply IH, Hp.
  - apply IH, Hp.
  - destruct Hp as [Hc Hk]. rewrite quiet_start by exact Hk. apply IHc, Hc.
Qed.

Lemma load_calm : calm loadSavedTranscriptions.
Proof.
  cbn. intros [d [e|]|y]; cbn; auto. intros [d' [e|]|y]; cbn; auto.
Qed.

Lemma stop_calm s : calm (stopRecording s).
Proof.
  unfold stopRecording.
  destruct (recognition s); destruct (negb _); cbn; auto.
  all: intros [d [e|]|y]; cbn; auto.
  all: intros t [d' [e|]|y]; cbn; auto.
  all: split; auto; exact load_calm.
Qed.

Lemma delete_calm n : calm (deleteTranscription n).
Proof.
  cbn. intros [d [e|]|y]; cbn; auto. split; auto. exact load_calm.
Qed.

Lemma start_recording_calm s : calm (startRecording s).
Proof.
  unfold startRecording. destruct (recognition s); cbn; auto.
  intros [|y]; cbn; auto. intros s'. destruct (recognition s') as [r|]; cbn; auto.
  destruct (started r); cbn; auto.
Qed.

Lemma step_calm now a w w' :
  Forall parked_calm (waiting w) -> step now a w = Some w' ->
  Forall parked_calm (waiting w')
  /\ (List.length (waiting w')
      <= List.length (waiting w)
         + match a with Answer _ _ | MediaAnswer _ _ => 0 | _ => 1 end)%nat.
Proof.
  intros Hw. unfold step.
  assert (Hgo : forall p w0, calm p -> Forall parked_calm (waiting w0) ->
            Forall parked_calm (waiting (fst (start now p w0)))
            /\ (List.length (waiting (fst (start now p w0)))
                <= List.length (waiting w0) + 1)%nat).
  { intros p w0 Hp Hw0. destruct (calm_start now p w0 Hp) as (x & -> & Hx & Hc).
    split; [apply Forall_app; auto | rewrite length_app; lia]. }
  assert (Hcut : forall i t, nth_error (waiting w) i = Some t ->
            parked_calm t /\ Forall parked_calm (waiting (unpark i w))
            /\ S (List.length (waiting (unpark i w))) = List.length (waiting w)).
  { intros i t E. rewrite Forall_forall in Hw. split; [|split].
    - apply Hw. eapply nth_error_In; eauto.
    - simpl. apply Forall_forall. intros x Hx. apply Hw.
      apply in_app_or in Hx as [Hx|Hx];
        [eapply in_firstn | eapply (in_skipn (S i))]; eauto.
    - assert (Hi : (i < List.length (waiting w))%nat)
        by (apply nth_error_Some; congruence).
      unfold unpark. cbn [waiting].
      rewrite length_app, length_firstn, length_skipn. lia. }
  destruct a as [ | n | n | n | i r | i m | ts | e ].
  - intros H. apply guard_some in H as [_ ->]. apply Hgo; auto.
    destruct (isRecording _); [apply stop_calm | apply start_recording_calm].
  - intros H. apply guard_some in H as [_ ->]. simpl. split; [auto|lia].
  - intros H. apply guard_some in H as [_ ->]. apply Hgo; auto. apply delete_calm.
  - intros H. apply guard_some in H as [_ ->]. simpl. split; [auto|lia].
  - destruct (nth_error (waiting w) i) as [[q k|k]|] eqn:E; try discriminate.
    intros H. apply Some_eq in H as ->.
    destruct (Hcut _ _ E) as (Hk & Hrest & Hlen).
    destruct (Hgo (k r) (log (Response q r) (unpark i w)) (Hk r) Hrest) as [H1 H2].
    split; [exact H1|]. simpl in *. lia.
  - destruct (nth_error (waiting w) i) as [[q k|k]|] eqn:E; try discriminate.
    intros H. apply Some_eq in H as ->.
    destruct (Hcut _ _ E) as (Hk & Hrest & Hlen).
    destruct (Hgo (k m) (log (MicResponse m) (unpark i w)) (Hk m) Hrest) as [H1 H2].
    split; [exact H1|]. simpl in *. lia.
  - intros H. apply guard_some in H as [_ ->]. simpl. split; [auto|lia].
  - intros H. apply guard_some in H as [_ ->].
    apply (Hgo (onerror_handler e) (update (on_instance (set_started false)) w));
      [|exact Hw].
    unfold onerror_handler. destruct (String.eqb _ _); cbn; auto.
Qed.

(** Between user actions the number of outstanding calls never grows:
    a handler resumed by an answer makes at most one further call, the
    reload's probe included. *)
Lemma answers_add_no_calls capability w now a w' :
  reachable capability w -> step now a w = Some w' ->
  (List.length (waiting w')
   <= List.length (waiting w)
      + match a with Answer _ _ | MediaAnswer _ _ => 0 | _ => 1 end)%nat.
Proof.
  intros Hw. apply step_calm.
  induction Hw as [t | w0 t b w1 _ IH Hstep].
  - unfold mount. destruct capability; cbn; repeat constructor; apply load_calm.
  - exact (proj1 (step_calm _ _ _ _ IH Hstep)).
Qed.

(** * Further properties of the handlers *)

(** ** Outcomes of one operation *)

(** X1: none of the four handlers ever rejects: whatever the store and
    the permission prompt answer, the promise of the call is fulfilled. *)
Theorem handlers_never_reject env s n :
  snd (exec env (startRecording s) (fresh s)) = Fulfilled
  /\ snd (exec env (stopRecording s) (fresh s)) = Fulfilled
  /\ snd (exec env loadSavedTranscriptions (fresh s)) = Fulfilled
  /\ snd (exec env (deleteTranscription n) (fresh s)) = Fulfilled.
Proof.
  split; [|split; [|split]].
  - reveal. destruct (recognition s) as [r|] eqn:E; cbn; [|reflexivity].
    destruct (media env); cbn; [|reflexivity].
    rewrite E. cbn. destruct (started r); reflexivity.
  - reveal. destruct (truthy (trim (transcription s))); destruct (recognition s); cbn.
    all: try reflexivity.
    all: destruct (reply env SelectCount) as [d [e|]|y]; cbn; try reflexivity.
    all: destruct (reply env (Insert _ _)) as [d' [e|]|y]; reflexivity.
  - cbn. destruct (reply env SelectCount) as [d [e|]|y]; cbn; try reflexivity.
    destruct (reply env SelectAll) as [d' [e|]|y]; reflexivity.
  - cbn. destruct (reply env (Delete n)) as [d [e|]|y]; reflexivity.
Qed.

(** X2: with a recognition instance, [startRecording] ends with
    [isRecording] true exactly when the permission is granted and the
    instance was not listening yet; otherwise it shows the microphone
    alert once.  In every case [isLoading] is false at the end, no store
    call is made, and the handlers are attached exactly when the
    permission was granted. *)
Theorem start_recording_outcome env s r :
  recognition s = Some r ->
  let w := fst (exec env (startRecording s) (fresh s)) in
  let ok := match media env with
            | Granted => negb (started r)
            | Denied _ => false
            end in
  isRecording (ui w) = ok
  /\ isLoading (ui w) = false
  /\ requests (trace w) = []
  /\ waiting w = []
  /\ filter is_alert (shown (trace w))
     = (if ok then []
        else [Alert "Unable to access microphone. Please ensure microphone permissions are granted and try again."])
  /\ recognition (ui w)
     = Some (match media env with
             | Granted => set_started true (attach_onerror (attach_onresult r))
             | Denied _ => r
             end).
Proof.
  intros E. cbv zeta. reveal. rewrite E. cbn.
  destruct (media env) as [|why]; cbn.
  - rewrite E. cbn. destruct r as [c i a b st]. destruct st; cbn; rewrite ?E; repeat split.
  - rewrite E. repeat split.
Qed.

Lemma start_recording_outcome_witness :
  recognition ready = Some new_instance
  /\ isRecording (ui (fst (exec store_up (startRecording ready) (fresh ready))))
     = true
  /\ isLoading (ui (fst (exec store_up (startRecording ready) (fresh ready))))
     = false.
Proof.
  assert (H : recognition ready = Some new_instance) by reflexivity.
  destruct (start_recording_outcome store_up ready new_instance H)
    as (H1 & H2 & _).
  exact (conj H (conj H1 H2)).
Defined.

(** X3: after [stopRecording], on every path, [isRecording] is false and
    the instance behind the handle is not listening; [isLoading] is false
    whenever the stop got past the blank-draft guard and untouched
    otherwise. *)
Theorem stop_always_ends_recording env s :
  let w := fst (exec env (stopRecording s) (fresh s)) in
  isRecording (ui w) = false
  /\ recognition (ui w) = option_map (set_started false) (recognition s)
  /\ isLoading (ui w) = (if truthy (trim (transcription s)) then false else isLoading s).
Proof.
  cbv zeta. reveal.
  destruct (truthy (trim (transcription s))); destruct (recognition s) as [r|] eqn:E; cbn.
  all: rewrite ?E; try (repeat split; reflexivity).
  all: destruct (reply env SelectCount) as [d [e|]|y]; cbn; rewrite ?E.
  all: try (repeat split; reflexivity).
  all: destruct (reply env (Insert _ _)) as [d' [e|]|y]; cbn; rewrite ?E.
  all: repeat split; reflexivity.
Qed.

(** X4: a stop with a draft that is not blank makes the probe, then the
    insert only if the probe had no error, then the reload's probe only
    if the insert had no error: nothing is retried.  It shows no alert on
    success and exactly one on failure, whose text tells a failed probe,
    a failed insert and a rejected call apart. *)
Theorem stop_calls_and_alerts env s :
  trim (transcription s) <> [] ->
  let w := fst (exec env (stopRecording s) (fresh s)) in
  let q := Insert (transcription s) (of_string (toISOString (clock env))) in
  requests (trace w)
  = SelectCount
      :: (if failed (reply env SelectCount) then []
          else q :: (if failed (reply env q) then [] else [SelectCount]))
  /\ filter is_alert (shown (trace w))
     = match reply env SelectCount with
       | Resolved _ (Some _) =>
           [Alert "Failed to connect to the database. Please check your connection and try again."]
       | Rejected _ => [Alert "An unexpected error occurred. Please try again."]
       | Resolved _ None =>
           match reply env q with
           | Resolved _ (Some _) => [Alert "Failed to save transcription. Please try again."]
           | Rejected _ => [Alert "An unexpected error occurred. Please try again."]
           | Resolved _ None => []
           end
       end.
Proof.
  intros Hdraft. cbv zeta. reveal. rewrite (truthy_true _ Hdraft).
  destruct (recognition s); cbn.
  all: destruct (reply env SelectCount) as [d [e|]|y]; cbn.
  all: try (split; reflexivity).
  all: destruct (reply env (Insert _ _)) as [d' [e|]|y]; cbn.
  all: split; reflexivity.
Qed.

Lemma stop_calls_and_alerts_witness :
  trim (transcription hello_world) <> []
  /\ requests (trace (fst (exec insert_refused (stopRecording hello_world)
                             (fresh hello_world))))
     = [SelectCount;
        Insert (of_string "hello world") (of_string "2023-11-14T22:13:20.000Z")]
  /\ filter is_alert
       (shown (trace (fst (exec insert_refused (stopRecording hello_world)
                             (fresh hello_world)))))
     = [Alert "Failed to save transcription. Please try again."].
Proof.
  assert (H : trim (transcription hello_world) <> [])
    by (vm_compute; discriminate).
  destruct (stop_calls_and_alerts insert_refused hello_world H) as (H1 & H2).
  exact (conj H (conj H1 H2)).
Defined.

(** X5: [deleteTranscription] makes the delete once, then the reload's
    probe only if the delete had no error; it shows no alert on success
    and exactly one on failure (one text for a store error, another for a
    rejected call); it ends with [isLoading] false and leaves the draft
    and [isRecording] alone. *)
Theorem delete_calls_and_alerts env s n :
  let w := fst (exec env (deleteTranscription n) (fresh s)) in
  requests (trace w)
  = Delete n :: (if failed (reply env (Delete n)) then [] else [SelectCount])
  /\ filter is_alert (shown (trace w))
     = match reply env (Delete n) with
       | Resolved _ (Some _) => [Alert "Failed to delete transcription. Please try again."]
       | Rejected _ => [Alert "An unexpected error occurred. Please try again."]
       | Resolved _ None => []
       end
  /\ isLoading (ui w) = false
  /\ isRecording (ui w) = isRecording s
  /\ transcription (ui w) = transcription s.
Proof.
  cbv zeta. cbn. destruct (reply env (Delete n)) as [d [e|]|y]; cbn.
  all: repeat split; reflexivity.
Qed.

(** X6: [loadSavedTranscriptions] makes the probe, then the select only
    if the probe had no error; it never shows an alert, ends with
    [isLoading] false, and replaces the saved list only when both calls
    came back without error: by the rows of the answer, or by the empty
    list when the answer carries no data. *)
Theorem load_calls_and_list env s :
  let w := fst (exec env loadSavedTranscriptions (fresh s)) in
  requests (trace w)
  = SelectCount :: (if failed (reply env SelectCount) then [] else [SelectAll])
  /\ filter is_alert (shown (trace w)) = []
  /\ waiting w = []
  /\ isLoading (ui w) = false
  /\ savedTranscriptions (ui w)
     = match reply env SelectCount, reply env SelectAll with
       | Resolved _ None, Resolved (Some rows) None => rows
       | Resolved _ None, Resolved None None => []
       | _, _ => savedTranscriptions s
       end.
Proof.
  cbv zeta. cbn. destruct (reply env SelectCount) as [d [e|]|y]; cbn.
  all: try (repeat split; reflexivity).
  destruct (reply env SelectAll) as [[rows|] [e|]|y]; cbn.
  all: repeat split; reflexivity.
Qed.


Section Guarded.

Variable R : Query -> Reply -> Proc -> Prop.
Variable M : MediaReply -> Proc -> Prop.

Lemma start_guarded now p :
  forall w, guarded R M p -> Forall (parked_guarded R M) (waiting w) ->
            Forall (parked_guarded R M) (waiting (fst (start now p w))).
Proof.
  induction p as [ | | e | f k IH | o k IH | q k IH | k IH | k IH | k IH
                 | c IHc k IHk ]; simpl; intros w Hp Hw.
  - exact Hw.
  - exact Hw.
  - exact Hw.
  - apply IH; assumption.
  - apply IH; assumption.
  - apply Forall_app. split; [exact Hw|]. constructor; [exact Hp | constructor].
  - apply Forall_app. split; [exact Hw|]. constructor; [exact Hp | constructor].
  - apply IH; [apply Hp | exact Hw].
  - apply IH; [apply Hp | exact Hw].
  - destruct Hp as [Hc Hk]. apply IHk; [exact Hk | apply IHc; assumption].
Qed.

Lemma unpark_guarded i w :
  Forall (parked_guarded R M) (waiting w) ->
  Forall (parked_guarded R M) (waiting (unpark i w)).
Proof.
  intros Hw. rewrite Forall_forall in *. intros t Ht. apply Hw.
  apply in_app_or in Ht as [Ht|Ht];
    [eapply in_firstn | eapply (in_skipn (S i))]; eauto.
Qed.

Lemma answered_guarded i w q k r :
  Forall (parked_guarded R M) (waiting w) ->
  nth_error (waiting w) i = Some (OnReply q k) ->
  R q r (k r) /\ guarded R M (k r).
Proof.
  intros Hw E. rewrite Forall_forall in Hw.
  exact (Hw _ (nth_error_In _ _ E) r).
Qed.

Lemma media_answered_guarded i w k m :
  Forall (parked_guarded R M) (waiting w) ->
  nth_error (waiting w) i = Some (OnUserMedia k) ->
  M m (k m) /\ guarded R M (k m).
Proof.
  intros Hw E. rewrite Forall_forall in Hw.
  exact (Hw _ (nth_error_In _ _ E) m).
Qed.

End Guarded.

Lemma start_appends now p :
  forall w, exists extra, waiting (fst (start now p w)) = waiting w ++ extra.
Proof.
  induction p as [ | | e | f k IH | o k IH | q k IH | k IH | k IH | k IH
                 | c IHc k IHk ]; simpl; intros w.
  1-3: exists []; rewrite app_nil_r; reflexivity.
  - apply (IH (update f w)).
  - apply (IH (log (Shown o) w)).
  - eexists. reflexivity.
  - eexists. reflexivity.
  - apply IH.
  - apply IH.
  - destruct (IHc w) as [x Hx]. destruct (IHk (fst (start now c w))) as [y Hy].
    exists (x ++ y). rewrite Hy, Hx, app_assoc. reflexivity.
Qed.

Lemma snoc_grows {A} (l : list A) x : l ++ [x] = l -> False.
Proof.
  intros H. apply (f_equal (@List.length A)) in H.
  rewrite length_app in H. simpl in H. lia.
Qed.


Ltac at_rest :=
  unfold spinner_R, spinner_M, resting, idle_stays; intros; cbn in *;
  first [ reflexivity | assumption
        | exfalso;
          match goal with
          | H : _ ++ [_] = _ |- _ =>
              apply (f_equal (@List.length _)) in H;
              rewrite length_app in H; simpl in H; lia
          end ].

Lemma load_spinner : guarded spinner_R spinner_M loadSavedTranscriptions.
Proof.
  cbn. intros [d [e|]|y]; cbn; (split; [at_rest|]); auto.
  intros [d' [e|]|y]; cbn; (split; [at_rest|]); auto.
Qed.

Lemma stop_spinner s : guarded spinner_R spinner_M (stopRecording s).
Proof.
  unfold stopRecording. destruct (recognition s); destruct (negb _); cbn; auto.
  all: intros [d [e|]|y]; cbn; (split; [at_rest|]); auto.
  all: intros t [d' [e|]|y]; cbn; (split; [at_rest|]); auto.
  all: split; auto; exact load_spinner.
Qed.

Lemma delete_spinner n : guarded spinner_R spinner_M (deleteTranscription n).
Proof.
  cbn. intros [d [e|]|y]; cbn; (split; [at_rest|]); auto.
  split; auto. exact load_spinner.
Qed.

Lemma start_spinner s : guarded spinner_R spinner_M (startRecording s).
Proof.
  unfold startRecording. destruct (recognition s); cbn; auto.
  intros [|y]; cbn; (split; [|auto]).
  - unfold spinner_M, resting. intros now w _. cbn.
    destruct (recognition (ui w)) as [[c i a b []]|]; reflexivity.
  - intros s'. destruct (recognition s') as [r|]; cbn; auto.
    destruct (started r); cbn; auto.
  - at_rest.
Qed.

Lemma stop_idle s : idle_stays (stopRecording s).
Proof.
  unfold stopRecording.
  destruct (recognition s); destruct (negb _); at_rest.
Qed.

Lemma start_idle s : idle_stays (startRecording s).
Proof. unfold startRecording. destruct (recognition s); at_rest. Qed.

Lemma segment_spinner now p w0 :
  (waiting (fst (start now p w0)) = waiting w0 ->
   isLoading (ui (fst (start now p w0))) = false) ->
  (waiting (fst (start now p w0)) = waiting w0 -> waiting w0 = [] ->
   isLoading (ui (fst (start now p w0))) = false)
  /\ (isLoading (ui (fst (start now p w0))) = true ->
      waiting (fst (start now p w0)) <> []).
Proof.
  intros H. split; [auto|]. intros Hl Hnil.
  destruct (start_appends now p w0) as [x Hx]. rewrite Hx in Hnil.
  apply app_eq_nil in Hnil as [H0 ->]. rewrite app_nil_r in Hx.
  rewrite (H Hx) in Hl. discriminate.
Qed.


Lemma step_spinner now a w w' :
  spinner_inv w -> step now a w = Some w' -> spinner_inv w'.
Proof.
  intros [Hw Hp]. unfold step.
  destruct a as [ | n | n | n | i r | i m | ts | e ].
  - intros H. apply guard_some in H as [Hg ->].
    apply negb_true_iff in Hg. split.
    + apply segment_spinner. intros Hsame.
      destruct (isRecording (ui w)); [apply stop_idle | apply start_idle]; auto.
    + apply start_guarded; [|exact Hp].
      destruct (isRecording (ui w)); [apply stop_spinner | apply start_spinner].
  - intros H. apply guard_some in H as [_ ->]. split; [exact Hw | exact Hp].
  - intros H. apply guard_some in H as [_ ->]. split.
    + apply segment_spinner. intros Hsame. exfalso.
      cbn in Hsame. eapply snoc_grows; eassumption.
    + apply start_guarded; [apply delete_spinner | exact Hp].
  - intros H. apply guard_some in H as [_ ->]. split; [exact Hw | exact Hp].
  - destruct (nth_error (waiting w) i) as [[q k|k]|] eqn:E; try discriminate.
    intros H. apply Some_eq in H as ->.
    destruct (answered_guarded _ _ _ _ _ _ r Hp E) as [Hr Hg]. split.
    + apply segment_spinner. apply Hr.
    + apply start_guarded; [exact Hg | apply unpark_guarded; exact Hp].
  - destruct (nth_error (waiting w) i) as [[q k|k]|] eqn:E; try discriminate.
    intros H. apply Some_eq in H as ->.
    destruct (media_answered_guarded _ _ _ _ _ m Hp E) as [Hr Hg]. split.
    + apply segment_spinner. apply Hr.
    + apply start_guarded; [exact Hg | apply unpark_guarded; exact Hp].
  - intros H. apply guard_some in H as [_ ->]. split; [exact Hw | exact Hp].
  - intros H. apply guard_some in H as [_ ->]. split.
    + intros Hl. exfalso. revert Hl. unfold onerror_handler.
      destruct (String.eqb _ _); cbn; discriminate.
    + unfold onerror_handler. destruct (String.eqb _ _); exact Hp.
Qed.

(** X7: in every reachable state, when [isLoading] is true some handler
    is parked at a store call or at the permission prompt: the busy flag
    never stays on with nothing in progress. *)
Theorem no_stuck_spinner capability w :
  reachable capability w ->
  isLoading (ui w) = true -> waiting w <> [].
Proof.
  intros Hw. enough (Hinv : spinner_inv w) by exact (proj1 Hinv).
  induction Hw as [now | w now a w' _ IH Hstep].
  - unfold mount. split.
    + destruct capability; cbn; intros _; discriminate.
    + apply start_guarded; [|constructor].
      unfold mount_effects. destruct capability; cbn; (split; [|exact Logic.I]).
      all: exact load_spinner.
  - exact (step_spinner _ _ _ _ IH Hstep).
Qed.

Lemma no_stuck_spinner_witness :
  reachable true (mount true 0)
  /\ isLoading (ui (mount true 0)) = true
  /\ waiting (mount true 0) <> [].
Proof.
  assert (H1 : reachable true (mount true 0)) by apply reach_mount.
  assert (H2 : isLoading (ui (mount true 0)) = true) by reflexivity.
  exact (conj H1 (conj H2 (no_stuck_spinner true (mount true 0) H1 H2))).
Defined.


Ltac list_kept :=
  unfold list_M, list_from_select, leaves_list;
  first [ left; intros; reflexivity | intros; reflexivity ].

Lemma load_list : guarded list_from_select list_M loadSavedTranscriptions.
Proof.
  cbn. intros [d [e|]|y]; cbn; (split; [list_kept|]); auto.
  intros [d' [e|]|y]; cbn; (split; [|exact Logic.I]); try list_kept.
  right. split; [reflexivity|]. exists d'. split; [reflexivity|].
  intros now w. reflexivity.
Qed.

Lemma stop_list s : guarded list_from_select list_M (stopRecording s).
Proof.
  unfold stopRecording. destruct (recognition s); destruct (negb _); cbn; auto.
  all: intros [d [e|]|y]; cbn; (split; [list_kept|]); auto.
  all: intros t [d' [e|]|y]; cbn; (split; [list_kept|]); auto.
  all: split; auto; exact load_list.
Qed.

Lemma delete_list n : guarded list_from_select list_M (deleteTranscription n).
Proof.
  cbn. intros [d [e|]|y]; cbn; (split; [list_kept|]); auto.
  split; auto. exact load_list.
Qed.

Lemma start_list s : guarded list_from_select list_M (startRecording s).
Proof.
  unfold startRecording. destruct (recognition s); cbn; auto.
  intros [|y]; cbn; (split; [|auto]).
  - unfold list_M, leaves_list. intros now w. cbn.
    destruct (recognition (ui w)) as [[c i a b []]|]; reflexivity.
  - intros s'. destruct (recognition s') as [r|]; cbn; auto.
    destruct (started r); cbn; auto.
  - list_kept.
Qed.

Lemma first_segment_leaves_list s n :
  leaves_list (stopRecording s) /\ leaves_list (startRecording s)
  /\ leaves_list (deleteTranscription n).
Proof.
  unfold stopRecording, startRecording.
  destruct (recognition s); destruct (negb _); repeat split; list_kept.
Qed.

Lemma step_list now a w w' :
  Forall (parked_guarded list_from_select list_M) (waiting w) ->
  step now a w = Some w' ->
  Forall (parked_guarded list_from_select list_M) (waiting w')
  /\ (savedTranscriptions (ui w') = savedTranscriptions (ui w)
      \/ exists i data k,
           a = Answer i (Resolved data None)
           /\ nth_error (waiting w) i = Some (OnReply SelectAll k)
           /\ savedTranscriptions (ui w') = or_empty data).
Proof.
  intros Hp. unfold step.
  destruct a as [ | n | n | n | i r | i m | ts | e ].
  - intros H. apply guard_some in H as [_ ->].
    destruct (first_segment_leaves_list (ui w) 0) as (Hs & Hr & _). split.
    + apply start_guarded; [|exact Hp].
      destruct (isRecording (ui w)); [apply stop_list | apply start_list].
    + left. destruct (isRecording (ui w)); [apply Hs | apply Hr].
  - intros H. apply guard_some in H as [_ ->]. split; [exact Hp | left; reflexivity].
  - intros H. apply guard_some in H as [_ ->].
    destruct (first_segment_leaves_list (ui w) n) as (_ & _ & Hd). split.
    + apply start_guarded; [apply delete_list | exact Hp].
    + left. apply Hd.
  - intros H. apply guard_some in H as [_ ->]. split; [exact Hp | left; reflexivity].
  - destruct (nth_error (waiting w) i) as [[q k|k]|] eqn:E; try discriminate.
    intros H. apply Some_eq in H as ->.
    destruct (answered_guarded _ _ _ _ _ _ r Hp E) as [Hr Hg]. split.
    + apply start_guarded; [exact Hg | apply unpark_guarded; exact Hp].
    + destruct Hr as [Hr | (-> & data & -> & Hr)].
      * left. apply (Hr now (log (Response q r) (unpark i w))).
      * right. exists i, data, k.
        split; [reflexivity | split; [exact E | apply Hr]].
  - destruct (nth_error (waiting w) i) as [[q k|k]|] eqn:E; try discriminate.
    intros H. apply Some_eq in H as ->.
    destruct (media_answered_guarded _ _ _ _ _ m Hp E) as [Hr Hg]. split.
    + apply start_guarded; [exact Hg | apply unpark_guarded; exact Hp].
    + left. apply (Hr now (log (MicResponse m) (unpark i w))).
  - intros H. apply guard_some in H as [_ ->]. split; [exact Hp | left; reflexivity].
  - intros H. apply guard_some in H as [_ ->]. unfold onerror_handler.
    destruct (String.eqb _ _); (split; [exact Hp | left; reflexivity]).
Qed.

(** X8: a turn of the event loop changes the saved list only when it
    handles the answer to a pending select that came back without error,
    and then the list becomes the rows of that answer (the empty list
    when it carries no data); clicks, speech events, the permission
    prompt and all other answers leave the list as it is. *)
Theorem list_changes_only_by_select capability w now a w' :
  reachable capability w ->
  step now a w = Some w' ->
  savedTranscriptions (ui w') = savedTranscriptions (ui w)
  \/ exists i data k,
       a = Answer i (Resolved data None)
       /\ nth_error (waiting w) i = Some (OnReply SelectAll k)
       /\ savedTranscriptions (ui w') = or_empty data.
Proof.
  intros Hw. apply step_list.
  induction Hw as [t | w0 t b w1 _ IH Hstep].
  - unfold mount. apply start_guarded; [|constructor].
    unfold mount_effects. destruct capability; cbn; (split; [|exact Logic.I]).
    all: exact load_list.
  - exact (proj1 (step_list _ _ _ _ IH Hstep)).
Qed.

Lemma list_changes_only_by_select_witness :
  reachable true (after [(1, Answer 0 (Resolved None None))] (mount true 0))
  /\ step 2 (Answer 0 two_rows)
       (after [(1, Answer 0 (Resolved None None))] (mount true 0))
     = Some (after loaded (mount true 0))
  /\ (savedTranscriptions (ui (after loaded (mount true 0)))
      = savedTranscriptions
          (ui (after [(1, Answer 0 (Resolved None None))] (mount true 0)))
      \/ exists i data k,
           Answer 0 two_rows = Answer i (Resolved data None)
           /\ nth_error
                (waiting (after [(1, Answer 0 (Resolved None None))] (mount true 0)))
                i
              = Some (OnReply SelectAll k)
           /\ savedTranscriptions (ui (after loaded (mount true 0)))
              = or_empty data).
Proof.
  assert (H1 : reachable true
                 (after [(1, Answer 0 (Resolved None None))] (mount true 0))).
  { apply after_reachable; [apply reach_mount | vm_compute; discriminate]. }
  assert (H2 : step 2 (Answer 0 two_rows)
                 (after [(1, Answer 0 (Resolved None None))] (mount true 0))
               = Some (after loaded (mount true 0))) by reflexivity.
  exact (conj H1 (conj H2 (list_changes_only_by_select true _ 2 _ _ H1 H2))).
Defined.


Ltac keep :=
  unfold inst_R, inst_M, keeps, configured;
  let E := fresh "E" in let H := fresh "H" in
  intros ? ? (r & E & C & I & H);
  destruct r as [c i a b st]; cbn in C, I, H; subst; cbn; rewrite ?E; cbn;
  try (destruct st; cbn; rewrite ?E; cbn);
  eexists; (split; [reflexivity|]); cbn;
  (split; [reflexivity|]); (split; [reflexivity|]);
  intros Hrec; first [discriminate Hrec | exact (H Hrec) | split; reflexivity].

Lemma load_inst : guarded inst_R inst_M loadSavedTranscriptions.
Proof.
  cbn. intros [d [e|]|y]; cbn; (split; [keep|]); auto.
  intros [d' [e|]|y]; cbn; (split; [keep|]); auto.
Qed.

Lemma stop_inst s : guarded inst_R inst_M (stopRecording s).
Proof.
  unfold stopRecording. destruct (recognition s); destruct (negb _); cbn; auto.
  all: intros [d [e|]|y]; cbn; (split; [keep|]); auto.
  all: intros t [d' [e|]|y]; cbn; (split; [keep|]); auto.
  all: split; auto; exact load_inst.
Qed.

Lemma delete_inst n : guarded inst_R inst_M (deleteTranscription n).
Proof.
  cbn. intros [d [e|]|y]; cbn; (split; [keep|]); auto.
  split; auto. exact load_inst.
Qed.

Lemma start_inst s : guarded inst_R inst_M (startRecording s).
Proof.
  unfold startRecording. destruct (recognition s); cbn; auto.
  intros [|y]; cbn; (split; [keep|]); auto.
  intros s'. destruct (recognition s') as [r|]; cbn; auto.
  destruct (started r); cbn; auto.
Qed.

Lemma first_segment_keeps s n e ts o :
  keeps (stopRecording s) /\ keeps (startRecording s)
  /\ keeps (deleteTranscription n)
  /\ keeps (Update (on_instance (set_started false)) (onerror_handler e))
  /\ keeps (onresult_handler ts)
  /\ keeps (setShowDeleteConfirm o).
Proof.
  unfold stopRecording, startRecording, onerror_handler.
  destruct (recognition s); destruct (negb _); destruct (String.eqb _ _).
  all: repeat split; keep.
Qed.

Lemma step_configured now a w w' :
  configured (ui w) /\ Forall (parked_guarded inst_R inst_M) (waiting w) ->
  step now a w = Some w' ->
  configured (ui w') /\ Forall (parked_guarded inst_R inst_M) (waiting w').
Proof.
  intros [Hw Hp]. unfold step.
  destruct a as [ | n | n | n | i r | i m | ts | e ].
  - intros H. apply guard_some in H as [_ ->].
    destruct (first_segment_keeps (ui w) 0 EmptyString [] None) as (Hs & Hr & _).
    split.
    + destruct (isRecording (ui w)); [apply Hs | apply Hr]; exact Hw.
    + apply start_guarded; [|exact Hp].
      destruct (isRecording (ui w)); [apply stop_inst | apply start_inst].
  - intros H. apply guard_some in H as [_ ->]. split; [|exact Hp].
    destruct (first_segment_keeps (ui w) 0 EmptyString [] (Some n))
      as (_ & _ & _ & _ & _ & Ho).
    exact (Ho now w Hw).
  - intros H. apply guard_some in H as [_ ->]. split.
    + destruct (first_segment_keeps (ui w) n EmptyString [] None)
        as (_ & _ & Hd & _).
      exact (Hd now w Hw).
    + apply start_guarded; [apply delete_inst | exact Hp].
  - intros H. apply guard_some in H as [_ ->]. split; [|exact Hp].
    destruct (first_segment_keeps (ui w) 0 EmptyString [] None)
      as (_ & _ & _ & _ & _ & Ho).
    exact (Ho now w Hw).
  - destruct (nth_error (waiting w) i) as [[q k|k]|] eqn:E; try discriminate.
    intros H. apply Some_eq in H as ->.
    destruct (answered_guarded _ _ _ _ _ _ r Hp E) as [Hr Hg]. split.
    + apply Hr. exact Hw.
    + apply start_guarded; [exact Hg | apply unpark_guarded; exact Hp].
  - destruct (nth_error (waiting w) i) as [[q k|k]|] eqn:E; try discriminate.
    intros H. apply Some_eq in H as ->.
    destruct (media_answered_guarded _ _ _ _ _ m Hp E) as [Hr Hg]. split.
    + apply Hr. exact Hw.
    + apply start_guarded; [exact Hg | apply unpark_guarded; exact Hp].
  - intros H. apply guard_some in H as [_ ->]. split; [|exact Hp].
    destruct (first_segment_keeps (ui w) 0 EmptyString ts None)
      as (_ & _ & _ & _ & Ht & _).
    exact (Ht now w Hw).
  - intros H. apply guard_some in H as [_ ->]. split.
    + destruct (first_segment_keeps (ui w) 0 e [] None) as (_ & _ & _ & He & _).
      exact (He now w Hw).
    + unfold onerror_handler. destruct (String.eqb _ _); exact Hp.
Qed.

(** X9: on a platform with speech recognition, in every reachable state
    the handle points to an instance that is continuous and reports
    interim results, and whenever [isRecording] is true both the result
    handler and the error handler are attached to it. *)
Theorem instance_stays_configured w :
  reachable true w -> configured (ui w).
Proof.
  intros Hw.
  enough (H : configured (ui w)
              /\ Forall (parked_guarded inst_R inst_M) (waiting w))
    by exact (proj1 H).
  induction Hw as [now | w now a w' _ IH Hstep].
  - unfold mount. split.
    + cbn. exists new_instance. repeat split; discriminate.
    + apply start_guarded; [|constructor].
      cbn. split; [|exact Logic.I]. exact load_inst.
  - exact (step_configured _ _ _ _ IH Hstep).
Qed.

Lemma instance_stays_configured_witness :
  reachable true (after recording (mount true 0))
  /\ isRecording (ui (after recording (mount true 0))) = true
  /\ configured (ui (after recording (mount true 0))).
Proof.
  assert (H1 : reachable true (after recording (mount true 0))).
  { apply after_reachable; [apply reach_mount | vm_compute; discriminate]. }
  assert (H2 : isRecording (ui (after recording (mount true 0))) = true)
    by (vm_compute; reflexivity).
  exact (conj H1 (conj H2 (instance_stays_configured _ H1))).
Defined.

Lemma shown_app t u : shown (t ++ u) = shown t ++ shown u.
Proof.
  induction t as [|[q|q r| |m|o] t IH]; simpl; rewrite ?IH; reflexivity.
Qed.

(** X10: a recognition error event sets [isRecording] and [isLoading] to
    false and shows the microphone alert only for [not-allowed]; it
    leaves the draft and every parked handler as they were, so the
    buttons are enabled again even while a store call is in flight. *)
Theorem speech_error_frees_controls now e w w' :
  step now (SpeechError e) w = Some w' ->
  isRecording (ui w') = false
  /\ isLoading (ui w') = false
  /\ waiting w' = waiting w
  /\ transcription (ui w') = transcription (ui w)
  /\ recognition (ui w') = option_map (set_started false) (recognition (ui w))
  /\ filter is_alert (shown (trace w'))
     = filter is_alert (shown (trace w))
       ++ (if String.eqb e "not-allowed"
           then [Alert "Microphone access is required for speech recognition. Please allow microphone access and try again."]
           else []).
Proof.
  unfold step. intros H. apply guard_some in H as [_ ->].
  unfold onerror_handler. destruct (String.eqb e "not-allowed"); cbn.
  all: repeat split; rewrite ?shown_app, ?filter_app; cbn.
  all: rewrite ?app_nil_r; reflexivity.
Qed.

Lemma speech_error_frees_controls_witness :
  step 8 (SpeechError "network") (after deleting_while_recording (mount true 0))
  = Some (fst (start 8 (onerror_handler "network")
                 (update (on_instance (set_started false))
                    (after deleting_while_recording (mount true 0)))))
  /\ isLoading (ui (after deleting_while_recording (mount true 0))) = true
  /\ in_flight (waiting (after deleting_while_recording (mount true 0)))
     = [Delete 7]
  /\ isLoading
       (ui (fst (start 8 (onerror_handler "network")
                   (update (on_instance (set_started false))
                      (after deleting_while_recording (mount true 0))))))
     = false
  /\ waiting
       (fst (start 8 (onerror_handler "network")
               (update (on_instance (set_started false))
                  (after deleting_while_recording (mount true 0)))))
     = waiting (after deleting_while_recording (mount true 0)).
Proof.
  assert (H0 : listening (ui (after deleting_while_recording (mount true 0)))
                 onerror = true) by (vm_compute; reflexivity).
  assert (H : step 8 (SpeechError "network")
                (after deleting_while_recording (mount true 0))
              = Some (fst (start 8 (onerror_handler "network")
                             (update (on_instance (set_started false))
                                (after deleting_while_recording (mount true 0)))))).
  { unfold step. cbv beta zeta. rewrite H0. reflexivity. }
  assert (H1 : isLoading (ui (after deleting_while_recording (mount true 0)))
               = true) by (vm_compute; reflexivity).
  assert (H2 : in_flight (waiting (after deleting_while_recording (mount true 0)))
               = [Delete 7]) by (vm_compute; reflexivity).
  destruct (speech_error_frees_controls _ _ _ _ H) as (_ & H3 & H4 & _).
  exact (conj H (conj H1 (conj H2 (conj H3 H4)))).
Defined.

(** X11: pressing the button while recording with a draft that is not
    blank parks the handler at the probe; when the probe is answered
    without error, in whatever state the page is by then, the insert it
    makes carries the draft as it was at the click and the clock's
    reading at the answer. *)
Theorem insert_carries_draft_at_click now w w1 :
  isRecording (ui w) = true ->
  trim (transcription (ui w)) <> [] ->
  step now ClickRecord w = Some w1 ->
  exists k,
    waiting w1 = waiting w ++ [OnReply SelectCount k]
    /\ forall t data w2,
         in_flight (waiting (fst (start t (k (Resolved data None)) w2)))
         = in_flight (waiting w2)
           ++ [Insert (transcription (ui w)) (of_string (toISOString t))].
Proof.
  intros Hrec Hdraft H. unfold step in H. apply guard_some in H as [_ ->].
  rewrite Hrec. reveal. rewrite (truthy_true _ Hdraft).
  destruct (recognition (ui w)); cbn.
  all: eexists; split; [reflexivity|]; intros t data w2; cbn.
  all: induction (waiting w2) as [|[q k|k] l IH]; cbn; rewrite ?IH; reflexivity.
Qed.

Lemma insert_carries_draft_at_click_witness :
  isRecording (ui (after recording (mount true 0))) = true
  /\ trim (transcription (ui (after recording (mount true 0)))) <> []
  /\ step 6 ClickRecord (after recording (mount true 0))
     = Some (fst (start 6 (stopRecording (ui (after recording (mount true 0))))
                    (after recording (mount true 0))))
  /\ exists k,
       waiting (fst (start 6 (stopRecording (ui (after recording (mount true 0))))
                       (after recording (mount true 0))))
       = waiting (after recording (mount true 0)) ++ [OnReply SelectCount k].
Proof.
  assert (H0 : isLoading (ui (after recording (mount true 0))) = false)
    by (vm_compute; reflexivity).
  assert (H1 : isRecording (ui (after recording (mount true 0))) = true)
    by (vm_compute; reflexivity).
  assert (H2 : trim (transcription (ui (after recording (mount true 0)))) <> [])
    by (vm_compute; discriminate).
  assert (H3 : step 6 ClickRecord (after recording (mount true 0))
               = Some (fst (start 6
                              (stopRecording (ui (after recording (mount true 0))))
                              (after recording (mount true 0))))).
  { unfold step. cbv beta zeta. rewrite H0, H1. reflexivity. }
  destruct (insert_carries_draft_at_click 6 _ _ H1 H2 H3) as (k & Hk & _).
  exact (conj H1 (conj H2 (conj H3 (ex_intro _ k Hk)))).
Defined.


(** X12: in the second variant [stopRecording] also never rejects and
    always ends with [isRecording] false, but it keeps the draft when the
    probe comes back with an error (the early return skips the setters
    after the [try]); the draft is cleared on all other paths past the
    blank-draft guard. *)
Theorem variant2_stop_draft env s :
  let w := fst (exec env (Variant2.stopRecording s) (fresh s)) in
  isRecording (ui w) = false
  /\ snd (exec env (Variant2.stopRecording s) (fresh s)) = Fulfilled
  /\ transcription (ui w)
     = if truthy (trim (transcription s))
       then match reply env SelectCount with
            | Resolved _ (Some _) => transcription s
            | _ => []
            end
       else transcription s.
Proof.
  cbv zeta. unfold Variant2.stopRecording, Variant2.loadSavedTranscriptions. reveal.
  destruct (truthy (trim (transcription s))); destruct (recognition s); cbn.
  all: try (repeat split; reflexivity).
  all: destruct (reply env SelectCount) as [d [e|]|y]; cbn.
  all: try (repeat split; reflexivity).
  all: destruct (reply env (Insert _ _)) as [d' [e|]|y]; cbn.
  all: repeat split; reflexivity.
Qed.

(** X13: for every store behaviour and every state the two variants of
    [stopRecording] make the same calls in the same order and show the
    same alerts and console lines, leave the same call in flight, and
    agree on [isRecording], the saved list and the instance; the two
    variants of [loadSavedTranscriptions] agree on their trace and on the
    saved list. *)
Theorem variants_agree_on_calls env s :
  let w1 := fst (exec env (stopRecording s) (fresh s)) in
  let w2 := fst (exec env (Variant2.stopRecording s) (fresh s)) in
  let l1 := fst (exec env loadSavedTranscriptions (fresh s)) in
  let l2 := fst (exec env Variant2.loadSavedTranscriptions (fresh s)) in
  trace w1 = trace w2
  /\ in_flight (waiting w1) = in_flight (waiting w2)
  /\ isRecording (ui w1) = isRecording (ui w2)
  /\ savedTranscriptions (ui w1) = savedTranscriptions (ui w2)
  /\ recognition (ui w1) = recognition (ui w2)
  /\ trace l1 = trace l2
  /\ savedTranscriptions (ui l1) = savedTranscriptions (ui l2).
Proof.
  cbv zeta. unfold Variant2.stopRecording, Variant2.loadSavedTranscriptions. reveal.
  destruct (truthy (trim (transcription s))); destruct (recognition s); cbn.
  all: destruct (reply env SelectCount) as [d [e|]|y]; cbn.
  all: try (repeat split; reflexivity).
  all: destruct (reply env SelectAll) as [d1 [e1|]|y1]; cbn.
  all: try (repeat split; reflexivity).
  all: destruct (reply env (Insert _ _)) as [d' [e|]|y]; cbn.
  all: repeat split; reflexivity.
Qed.
